(** * dB Meter Pro: the loudness pipeline of [src/App.tsx]

    A shallow embedding of the analysis callback [update] of the React
    component [App], of the timer callbacks it arms and of the effects that
    feed it its settings, followed by the properties of the estimator, the
    smoother, the sustained-noise detector and the bounded buffers.

    Numbers.  JavaScript numbers that only ever hold integers (clock
    readings in milliseconds, rounded decibel readings, the threshold and the
    calibration offset, which the sliders deliver through [parseInt]) are [Z].
    The smoothing coefficients and the duration limit are fractions and are
    rationals ([Q]), so the smoother and the detector stay executable.  The
    estimator needs a square root and a logarithm and is stated over the real
    numbers ([R]).  Rounding errors of the 64-bit floats are not modelled:
    the estimator and the smoother below say which expressions the code
    evaluates, and the properties proved of them are those that do not
    depend on the arithmetic being exact.

    State.  The [useRef] cells, the [useState] cells the pipeline writes and
    the host's side (armed timers, notifications sent) are three records; the
    callbacks are functions from state to state, and a run of the component
    is a list of events (animation frames, timeouts, aggregator intervals,
    settings changes, device changes) folded over the state.  The clock is an
    input: every call of [Date.now()] and [new Date()] is a field of the
    event that makes it.  Two state updaters read their environment when
    React runs them and not when they are queued (the one of the timeout
    reads [new Date()], the one of the aggregator reads [sessionPeakRef]);
    they are taken to run once their callback has returned, before the next
    event.  The visualiser data ([frequencies]) and the device
    list play no part in the pipeline and are left out; the guard
    [if (!analyser.current) return] never fires once monitoring has started,
    which is when [update] exists, and the effect that loads the persisted
    settings (lines 122-146) writes the same refs as the settings effect,
    which runs after it. *)

From Stdlib Require Import ZArith QArith Qround Reals List String Bool Lia Lra.
From Stdlib Require Import DecimalString.
Import ListNotations.

Local Open Scope Z_scope.

(* ================================================================== *)
(** ** dB bands *)

(** [getDbLabel] of [src/App.tsx], lines 24-34. *)
Definition getDbLabel (db : Z) : string :=
  if db <? 30 then "Whisper Quiet"
  else if db <? 40 then "Quiet Library"
  else if db <? 50 then "Quiet Room"
  else if db <? 60 then "Normal Conversation"
  else if db <? 70 then "Busy Office"
  else if db <? 80 then "Loud Café"
  else if db <? 90 then "Vacuum / Traffic"
  else if db <? 100 then "Sound System"
  else "Potential Damage!".

(** The earlier copy of the component that is kept after [main.js]
    (lines 186-196 of that file) differs in the text of the last band only. *)
Module Earlier.

Definition getDbLabel (db : Z) : string :=
  if db <? 30 then "Whisper Quiet"
  else if db <? 40 then "Quiet Library"
  else if db <? 50 then "Quiet Room"
  else if db <? 60 then "Normal Conversation"
  else if db <? 70 then "Busy Office"
  else if db <? 80 then "Loud Café"
  else if db <? 90 then "Vacuum / Traffic"
  else if db <? 100 then "Sound System"
  else "Potential Hearing Damage!".

End Earlier.

(* ================================================================== *)
(** ** Loudness estimator ([update], lines 230-240) *)

Module Estimator.

Local Open Scope R_scope.

(** The accumulation loop of lines 231-234: [sum += dataArray[i] * dataArray[i]],
    from the first sample to the last.  The sum is the exact one; the code's
    is rounded after every addition. *)
Definition sum_of_squares (dataArray : list R) : R :=
  fold_left (fun sum x => sum + x * x) dataArray 0.

(** [bufferLength] is the length of [dataArray]. *)
Definition bufferLength (dataArray : list R) : R := INR (List.length dataArray).

(** Line 235: [Math.sqrt(sum / bufferLength)]. *)
Definition rms (dataArray : list R) : R :=
  sqrt (sum_of_squares dataArray / bufferLength dataArray).

(** [Math.log10]. *)
Definition log10 (x : R) : R := ln x / ln 10.

(** Line 239. *)
Definition baseDb (dataArray : list R) : R :=
  if Rlt_dec (1 / 1000000) (rms dataArray)
  then 20 * log10 (rms dataArray) + 80
  else 0.

(** [Math.round]: the nearest integer, halves going up, that is
    [floor (x + 1/2)]. *)
Definition Math_round (x : R) : Z := Int_part (x + / 2).

(** Line 240, in exact arithmetic. *)
Definition currentDb (dataArray : list R) (calibration : Z) : Z :=
  Math_round (Rmax 0 (baseDb dataArray + IZR calibration)).

End Estimator.

(* ================================================================== *)
(** ** State of the component [App] *)

Inductive SmoothingSpeed : Set := slow | medium | fast.

(** [interface SoundEvent], lines 17-22.  [id] is the random string of line
    295; [timestamp] is the clock reading [new Date()] of line 296, kept in
    milliseconds (its rendering by [toLocaleTimeString] is the host's). *)
Record SoundEvent : Set := {
  id : string;
  timestamp : Z;
  db : Z;
  label : string
}.

(** What [window.electron.sendNotification] receives. *)
Record Notification : Set := {
  title : string;
  body : string
}.

(** The user settings held in React state (lines 95-96, 102-103) and written
    to storage by the effect of lines 157-173. *)
Record Settings : Set := {
  threshold : Z;
  durationThreshold : Q;
  calibrationOffset : Z;
  smoothingSpeed : SmoothingSpeed
}.

(** The [useRef] cells of lines 109-120. *)
Record Refs : Set := {
  lastNotifyTime : Z;
  thresholdRef : Z;
  smoothedDbRef : Q;
  durationRef : Q;
  loudStartTimeRef : option Z;
  calibrationRef : Z;
  smoothingAlphaRef : Q;
  displayIntervalRef : Z;
  lastDisplayUpdateRef : Z;
  sessionPeakRef : Z;
  eventPeakRef : Z;
  isEventOccurring : bool
}.

(** The [useState] cells of lines 90-103 that the pipeline writes. *)
Record View : Set := {
  displayDb : Q;
  peak : Z;
  history : list Z;
  isAlerting : bool;
  events : list SoundEvent;
  sessionHistory : list Z;
  settings : Settings
}.

(** A callback armed by [setTimeout] (line 286): its delay and the one
    variable of the enclosing tick that the notification text uses. *)
Record Timer : Set := {
  delay : Z;
  currentDurationLimit : Q
}.

(** The host side: the timers that are armed and have not run yet, and the
    notifications handed to the notifier so far (oldest first). *)
Record Host : Set := {
  timers : list Timer;
  notifications : list Notification
}.

Record App : Set := {
  refs : Refs;
  view : View;
  host : Host
}.

(** The state after the first render: the initial values of lines 90-120. *)
Definition initial : App :=
  {| refs := {| lastNotifyTime := 0;
                thresholdRef := 80;
                smoothedDbRef := 0;
                durationRef := 2;
                loudStartTimeRef := None;
                calibrationRef := 0;
                smoothingAlphaRef := 1 # 4;
                displayIntervalRef := 700;
                lastDisplayUpdateRef := 0;
                sessionPeakRef := 0;
                eventPeakRef := 0;
                isEventOccurring := false |};
     view := {| displayDb := 0;
                peak := 0;
                history := repeat 0 100;
                isAlerting := false;
                events := [];
                sessionHistory := [];
                settings := {| threshold := 80;
                               durationThreshold := 2;
                               calibrationOffset := 0;
                               smoothingSpeed := medium |} |};
     host := {| timers := []; notifications := [] |} |}.

(* ================================================================== *)
(** ** The settings effect (lines 157-173) *)

Definition alphas (s : SmoothingSpeed) : Q :=
  match s with slow => 1 # 10 | medium => 1 # 4 | fast => 3 # 5 end.

Definition intervals (s : SmoothingSpeed) : Z :=
  match s with slow => 1000 | medium => 700 | fast => 400 end.

(** [x || d] on numbers: [d] replaces a zero. *)
Definition Q_or (x d : Q) : Q := if Qeq_bool x 0 then d else x.
Definition Z_or (x d : Z) : Z := if x =? 0 then d else x.

(** A control changes the settings and the effect copies them into the refs. *)
Definition settingsEffect (s : Settings) (st : App) : App :=
  let r := refs st in
  let v := view st in
  {| refs := {| lastNotifyTime := lastNotifyTime r;
                thresholdRef := threshold s;
                smoothedDbRef := smoothedDbRef r;
                durationRef := durationThreshold s;
                loudStartTimeRef := loudStartTimeRef r;
                calibrationRef := calibrationOffset s;
                smoothingAlphaRef := Q_or (alphas (smoothingSpeed s)) (1 # 4);
                displayIntervalRef := Z_or (intervals (smoothingSpeed s)) 700;
                lastDisplayUpdateRef := lastDisplayUpdateRef r;
                sessionPeakRef := sessionPeakRef r;
                eventPeakRef := eventPeakRef r;
                isEventOccurring := isEventOccurring r |};
     view := {| displayDb := displayDb v;
                peak := peak v;
                history := history v;
                isAlerting := isAlerting v;
                events := events v;
                sessionHistory := sessionHistory v;
                settings := s |};
     host := host st |}.

(* ================================================================== *)
(** ** The session aggregator (lines 185-197) *)

(** [a.slice(-n)]: the last [n] entries. *)
Definition slice_last {A : Type} (n : nat) (a : list A) : list A :=
  skipn (List.length a - n) a.

(** Line 193: [sessionPeakRef.current = 0]. *)
Definition resetSessionPeak (r : Refs) : Refs :=
  {| lastNotifyTime := lastNotifyTime r;
     thresholdRef := thresholdRef r;
     smoothedDbRef := smoothedDbRef r;
     durationRef := durationRef r;
     loudStartTimeRef := loudStartTimeRef r;
     calibrationRef := calibrationRef r;
     smoothingAlphaRef := smoothingAlphaRef r;
     displayIntervalRef := displayIntervalRef r;
     lastDisplayUpdateRef := lastDisplayUpdateRef r;
     sessionPeakRef := 0;
     eventPeakRef := eventPeakRef r;
     isEventOccurring := isEventOccurring r |}.

(** The updater handed to [setSessionHistory] (lines 188-192).  It reads
    [sessionPeakRef.current] when React runs it, from the refs [r] as they
    are then. *)
Definition sessionUpdater (r : Refs) (prev : list Z) : list Z :=
  slice_last 480 (prev ++ [sessionPeakRef r]).

(** The interval callback: the updater is queued (line 188), the ref is
    reset (line 193), and React runs the updater once the callback has
    returned, on the refs as the callback left them. *)
Definition intervalCallback (st : App) : App :=
  let r := resetSessionPeak (refs st) in
  let v := view st in
  {| refs := r;
     view := {| displayDb := displayDb v;
                peak := peak v;
                history := history v;
                isAlerting := isAlerting v;
                events := events v;
                sessionHistory := sessionUpdater r (sessionHistory v);
                settings := settings v |};
     host := host st |}.

(** The cleanup of the monitoring effect (lines 178-182): [setPeak(0)] and a
    fresh history of a hundred zeros. *)
Definition monitoringCleanup (st : App) : App :=
  let v := view st in
  {| refs := refs st;
     view := {| displayDb := displayDb v;
                peak := 0;
                history := repeat 0 100;
                isAlerting := isAlerting v;
                events := events v;
                sessionHistory := sessionHistory v;
                settings := settings v |};
     host := host st |}.

(* ================================================================== *)
(** ** The analysis tick [update] (lines 224-312) *)

(** The clock readings of one tick, in program order: [now] of line 226,
    the [Date.now()] of line 273 that becomes the start of an episode, and
    the [Date.now()] of line 276 against which the episode is measured. *)
Record Clock : Set := {
  now : Z;
  nowAtStart : Z;
  nowAtCheck : Z
}.

(** [!loudStartTimeRef.current]: true of [null] and of zero. *)
Definition unset (loudStart : option Z) : bool :=
  match loudStart with
  | None => true
  | Some t => t =? 0
  end.

(** Line 269. *)
Definition above (r : Refs) (currentDb : Z) : bool :=
  thresholdRef r <? currentDb.

(** [loudStartTimeRef.current] after lines 272-274. *)
Definition episodeStart (r : Refs) (clk : Clock) : Z :=
  match loudStartTimeRef r with
  | None => nowAtStart clk
  | Some t => if t =? 0 then nowAtStart clk else t
  end.

(** Line 276, in seconds. *)
Definition sustainedDuration (r : Refs) (clk : Clock) : Q :=
  (inject_Z (nowAtCheck clk - episodeStart r clk) / inject_Z 1000)%Q.

(** The test of line 282, reached only above the threshold. *)
Definition qualifies (r : Refs) (currentDb : Z) (clk : Clock) : bool :=
  above r currentDb
  && negb (isEventOccurring r)
  && Qle_bool (durationRef r) (sustainedDuration r clk)
  && (7000 <? now clk - lastNotifyTime r).

(** Line 247. *)
Definition displayDue (r : Refs) (clk : Clock) : bool :=
  displayIntervalRef r <? now clk - lastDisplayUpdateRef r.

(** Lines 242-312 for a reading [currentDb] already computed.  The smoothed
    value is the exact one; the code's is rounded to a 64-bit float at every
    tick. *)
Definition update_with (currentDb : Z) (clk : Clock) (st : App) : App :=
  let r := refs st in
  let v := view st in
  let h := host st in
  let alpha := smoothingAlphaRef r in
  let smoothed :=
    (alpha * inject_Z currentDb + (1 - alpha) * smoothedDbRef r)%Q in
  {| refs := {| lastNotifyTime := lastNotifyTime r;
                thresholdRef := thresholdRef r;
                smoothedDbRef := smoothed;
                durationRef := durationRef r;
                loudStartTimeRef :=
                  if above r currentDb then Some (episodeStart r clk)
                  else None;
                calibrationRef := calibrationRef r;
                smoothingAlphaRef := smoothingAlphaRef r;
                displayIntervalRef := displayIntervalRef r;
                lastDisplayUpdateRef :=
                  if displayDue r clk then now clk
                  else lastDisplayUpdateRef r;
                sessionPeakRef := Z.max (sessionPeakRef r) currentDb;
                eventPeakRef :=
                  if above r currentDb
                  then Z.max (eventPeakRef r) currentDb
                  else eventPeakRef r;
                isEventOccurring :=
                  if qualifies r currentDb clk then true
                  else isEventOccurring r |};
     view := {| displayDb :=
                  if displayDue r clk then smoothed else displayDb v;
                peak := Z.max (peak v) currentDb;
                history :=
                  if Z.rem (now clk) 3 =? 0
                  then skipn 1 (history v) ++ [currentDb]
                  else history v;
                isAlerting := above r currentDb;
                events := events v;
                sessionHistory := sessionHistory v;
                settings := settings v |};
     host := {| timers :=
                  if qualifies r currentDb clk
                  then timers h ++ [ {| delay := 1000;
                                        currentDurationLimit := durationRef r |} ]
                  else timers h;
                notifications := notifications h |} |}.

(** The whole tick: the estimator on the sample buffer, then the rest. *)
Definition update (dataArray : list R) (clk : Clock) (st : App) : App :=
  update_with (Estimator.currentDb dataArray (calibrationRef (refs st))) clk st.

(* ================================================================== *)
(** ** The delayed emission (lines 286-304) and the event loop *)

(** What one run of the timeout callback reads from its environment:
    [Date.now()] (line 301), read while the callback runs, and the random
    identifier (line 295) and [new Date()] (line 296), which are read by the
    updater handed to [setEvents] when React runs it, after the callback has
    returned. *)
Record Firing : Set := {
  randomId : string;
  newDate : Z;
  nowAtNotify : Z
}.

Inductive Event : Set :=
| AnimationFrame (currentDb : Z) (clk : Clock)
| TimeoutFires (f : Firing)
| IntervalFires
| SettingsChange (s : Settings)
| DeviceCleanup.

Section Runtime.

(** The conversion of a number to text that a template literal applies. *)
Variable toString : Q -> string.

Definition notificationBody (peakToSend : Z) (limit : Q) : string :=
  ("Level reached " ++ toString (inject_Z peakToSend) ++ " dB for "
    ++ toString limit ++ "+ sec.")%string.

(** The body of the callback of lines 286-304, run for the timer [tm]. *)
Definition timeoutCallback (tm : Timer) (f : Firing) (st : App) : App :=
  let r := refs st in
  let v := view st in
  let h := host st in
  let peakToSend := eventPeakRef r in
  {| refs := {| lastNotifyTime := nowAtNotify f;
                thresholdRef := thresholdRef r;
                smoothedDbRef := smoothedDbRef r;
                durationRef := durationRef r;
                loudStartTimeRef := loudStartTimeRef r;
                calibrationRef := calibrationRef r;
                smoothingAlphaRef := smoothingAlphaRef r;
                displayIntervalRef := displayIntervalRef r;
                lastDisplayUpdateRef := lastDisplayUpdateRef r;
                sessionPeakRef := sessionPeakRef r;
                eventPeakRef := 0;
                isEventOccurring := false |};
     view := {| displayDb := displayDb v;
                peak := peak v;
                history := history v;
                isAlerting := isAlerting v;
                events :=
                  firstn 50 ({| id := randomId f;
                                timestamp := newDate f;
                                db := peakToSend;
                                label := getDbLabel peakToSend |} :: events v);
                sessionHistory := sessionHistory v;
                settings := settings v |};
     host := {| timers := timers h;
                notifications :=
                  notifications h ++
                  [ {| title := "Sustained Noise Detected!";
                       body := notificationBody peakToSend
                                 (currentDurationLimit tm) |} ] |} |}.

(** The host takes the oldest armed timer off its queue and runs it; with
    nothing armed there is nothing to run. *)
Definition fire (f : Firing) (st : App) : App :=
  match timers (host st) with
  | [] => st
  | tm :: rest =>
      timeoutCallback tm f
        {| refs := refs st;
           view := view st;
           host := {| timers := rest;
                      notifications := notifications (host st) |} |}
  end.

Definition step (st : App) (e : Event) : App :=
  match e with
  | AnimationFrame currentDb clk => update_with currentDb clk st
  | TimeoutFires f => fire f st
  | IntervalFires => intervalCallback st
  | SettingsChange s => settingsEffect s st
  | DeviceCleanup => monitoringCleanup st
  end.

Definition run (st : App) (evs : list Event) : App := fold_left step evs st.

(** A stretch of events in which every tick reads above the threshold in
    force at that tick (the other callbacks do not touch the episode). *)
Fixpoint loud_run (st : App) (evs : list Event) : bool :=
  match evs with
  | [] => true
  | e :: rest =>
      match e with
      | AnimationFrame currentDb _ => above (refs st) currentDb
      | _ => true
      end && loud_run (step st e) rest
  end.

End Runtime.

(** A decimal rendering of numbers for concrete runs: the sign, the whole
    part and, when the number is not whole, a point and the decimals.  It
    prints what JavaScript prints for the numbers whose decimal expansion
    ends within twenty places (2, 0.25, -7.5); others are cut there. *)
Definition digits_text (z : Z) : string :=
  DecimalString.NilZero.string_of_int (Z.to_int z).

Fixpoint fraction_digits (places : nat) (num den : Z) : string :=
  match places with
  | O => EmptyString
  | S places' =>
      if num =? 0 then EmptyString
      else (digits_text (num * 10 / den)
            ++ fraction_digits places' ((num * 10) mod den) den)%string
  end.

Definition decimal (q : Q) : string :=
  let den := Z.pos (Qden q) in
  let whole := Z.abs (Qnum q) / den in
  let rest := Z.abs (Qnum q) mod den in
  let sign : string := if Qnum q <? 0 then "-"%string else EmptyString in
  let decimals : string :=
    if rest =? 0 then EmptyString
    else ("." ++ fraction_digits 20 rest den)%string in
  (sign ++ digits_text whole ++ decimals)%string.

(* ================================================================== *)
(** ** Vocabulary of the properties *)

(** The smoothing presets in the words of the specification. *)
Definition spec_alpha (s : SmoothingSpeed) : Q :=
  match s with slow => 1 # 10 | medium => 1 # 4 | fast => 3 # 5 end.

Definition spec_refreshInterval (s : SmoothingSpeed) : Z :=
  match s with slow => 1000 | medium => 700 | fast => 400 end.

(** The clock readings an event makes, in the order in which they are made.
    A tick reads the clock three times (lines 226, 273, 276); the timeout
    callback reads [Date.now()] (line 301) itself and leaves [new Date()]
    (line 296) to the updater, which runs after it. *)
Definition readings (e : Event) : list Z :=
  match e with
  | AnimationFrame _ clk => [now clk; nowAtStart clk; nowAtCheck clk]
  | TimeoutFires f => [nowAtNotify f; newDate f]
  | IntervalFires | SettingsChange _ | DeviceCleanup => []
  end.

Fixpoint ascending_from (t : Z) (l : list Z) : bool :=
  match l with
  | [] => true
  | x :: rest => (t <=? x) && ascending_from x rest
  end.

(** The clock never runs backwards during the events [evs]. *)
Definition chronological (evs : list Event) : bool :=
  let l := flat_map readings evs in ascending_from (hd 0 l) l.

Definition isTimeout (e : Event) : bool :=
  match e with TimeoutFires _ => true | _ => false end.

Definition armed (st : App) : bool :=
  match timers (host st) with [] => false | _ :: _ => true end.

(** The detector is idle: no episode in progress, no emission pending. *)
Definition idle (st : App) : bool :=
  unset (loudStartTimeRef (refs st))
  && negb (isEventOccurring (refs st))
  && negb (armed st).

(** No entry of the log is older than an entry behind it. *)
Fixpoint newest_first (log : list SoundEvent) : Prop :=
  match log with
  | [] => True
  | e :: rest =>
      (forall e', In e' rest -> timestamp e' <= timestamp e)
      /\ newest_first rest
  end.

(** The flag [isEventOccurring] is up exactly while one timer is armed. *)
Definition pending_consistent (st : App) : Prop :=
  if isEventOccurring (refs st)
  then exists tm, timers (host st) = [tm]
  else timers (host st) = [].

(** The pending emission and the flag go together, an armed timer was armed
    after the cooldown, and the log holds clock readings of the past, newest
    first; [t] is the latest clock reading. *)
Definition detector_inv (L : Z) (st : App) (t : Z) : Prop :=
  L <= lastNotifyTime (refs st)
  /\ pending_consistent st
  /\ (armed st = true -> lastNotifyTime (refs st) + 7000 < t)
  /\ (forall e, In e (events (view st)) -> timestamp e <= t)
  /\ newest_first (events (view st)).

(** The sizes of the three bounded buffers. *)
Definition buffers_bounded (st : App) : Prop :=
  (List.length (history (view st)) <= 100)%nat
  /\ (List.length (sessionHistory (view st)) <= 480)%nat
  /\ (List.length (events (view st)) <= 50)%nat.

(** Running [evs] from [s0]: either the episode has no start, or it started
    at a tick of [evs] since which every tick has read above threshold. *)
Definition episode_inv (toString : Q -> string) (s0 : App) (evs : list Event)
  : Prop :=
  match loudStartTimeRef (refs (run toString s0 evs)) with
  | None => True
  | Some s =>
      exists pre d0 c0 rest,
        evs = pre ++ AnimationFrame d0 c0 :: rest
        /\ loud_run toString (run toString s0 pre)
             (AnimationFrame d0 c0 :: rest) = true
        /\ s = nowAtStart c0
  end.

(** The latest clock reading after the events [evs], [t] before them. *)
Definition clock_after (t : Z) (evs : list Event) : Z :=
  last (flat_map readings evs) t.

(** A few concrete inputs. *)
Definition tick (t : Z) : Clock := {| now := t; nowAtStart := t; nowAtCheck := t |}.

Definition firing (t : Z) : Firing :=
  {| randomId := "k3j9x0q2a"; newDate := t; nowAtNotify := t |}.

Definition quietRoom : Settings :=
  {| threshold := 50; durationThreshold := 2;
     calibrationOffset := 0; smoothingSpeed := medium |}.

(** [n] ticks reading [currentDb], the first at [start], one every [period]
    milliseconds. *)
Fixpoint steady (currentDb : Z) (start : Z) (period : Z) (n : nat)
  : list Event :=
  match n with
  | O => []
  | S n' =>
      AnimationFrame currentDb (tick start)
      :: steady currentDb (start + period) period n'
  end.

(** A wall-clock reading to start concrete runs from. *)
Definition T0 : Z := 1700000000000.

(** A buffer of [bufferLength = 512] samples of silence. *)
Definition silence : list R := repeat 0%R 512.

(* ================================================================== *)
(** ** Further parts of the component and of the main process *)

From Stdlib Require Import Ascii.

(** *** Vocabulary for runs *)

(** The readings of the ticks of a run, in order. *)
Definition tick_readings (evs : list Event) : list Z :=
  flat_map (fun e => match e with
                     | AnimationFrame d _ => [d]
                     | _ => []
                     end) evs.

(** The readings of the ticks whose clock reading is a multiple of three,
    which are the ones line 261 lets into the live history. *)
Definition pushed_readings (evs : list Event) : list Z :=
  flat_map (fun e => match e with
                     | AnimationFrame d clk =>
                         if Z.rem (now clk) 3 =? 0 then [d] else []
                     | _ => []
                     end) evs.

Definition isInterval (e : Event) : bool :=
  match e with IntervalFires => true | _ => false end.

Definition isCleanup (e : Event) : bool :=
  match e with DeviceCleanup => true | _ => false end.

(** A stretch of events in which every tick reads at or below the threshold
    in force at that tick. *)
Fixpoint quiet_run (toString : Q -> string) (st : App) (evs : list Event)
  : bool :=
  match evs with
  | [] => true
  | e :: rest =>
      match e with
      | AnimationFrame currentDb _ => negb (above (refs st) currentDb)
      | _ => true
      end && quiet_run toString (step toString st e) rest
  end.

(** A logged event and the notification sent with it: the same peak, and
    the label of that peak. *)
Definition logged_with (toString : Q -> string) (e : SoundEvent)
    (n : Notification) : Prop :=
  title n = "Sustained Noise Detected!"%string
  /\ label e = getDbLabel (db e)
  /\ exists limit, body n = notificationBody toString (db e) limit.

(** *** The mount effect (lines 122-155) *)

(** The object [JSON.parse(saved)] yields: a field that is missing reads
    [undefined]. *)
Record Saved : Set := {
  savedThreshold : option Z;
  savedDeviceId : option string;
  savedDurationThreshold : option Q;
  savedCalibrationOffset : option Z;
  savedSmoothingSpeed : option SmoothingSpeed
}.

(** What the settings effect stores (lines 158-164). *)
Definition persisted (s : Settings) (selectedDevice : string) : Saved :=
  {| savedThreshold := Some (threshold s);
     savedDeviceId := Some selectedDevice;
     savedDurationThreshold := Some (durationThreshold s);
     savedCalibrationOffset := Some (calibrationOffset s);
     savedSmoothingSpeed := Some (smoothingSpeed s) |}.

(** [if (x)] on a number that may be [undefined]. *)
Definition truthyZ (x : option Z) : option Z :=
  match x with
  | Some z => if z =? 0 then None else Some z
  | None => None
  end.

Definition truthyQ (x : option Q) : option Q :=
  match x with
  | Some q => if Qeq_bool q 0 then None else Some q
  | None => None
  end.

Definition truthyString (x : option string) : option string :=
  match x with
  | Some s => if String.eqb s EmptyString then None else Some s
  | None => None
  end.

Definition orElse {A : Type} (x : option A) (d : A) : A :=
  match x with Some a => a | None => d end.

(** Lines 123-146: each field that passes its test is copied into the React
    state and into its ref; the smoothing speed also sets the coefficient
    and the refresh interval. *)
Definition loadSettings (saved : option Saved) (st : App) : App :=
  match saved with
  | None => st
  | Some o =>
      let r := refs st in
      let v := view st in
      let s := settings v in
      {| refs := {| lastNotifyTime := lastNotifyTime r;
                    thresholdRef :=
                      orElse (truthyZ (savedThreshold o)) (thresholdRef r);
                    smoothedDbRef := smoothedDbRef r;
                    durationRef :=
                      orElse (truthyQ (savedDurationThreshold o)) (durationRef r);
                    loudStartTimeRef := loudStartTimeRef r;
                    calibrationRef :=
                      orElse (savedCalibrationOffset o) (calibrationRef r);
                    smoothingAlphaRef :=
                      match savedSmoothingSpeed o with
                      | Some sp => Q_or (alphas sp) (1 # 4)
                      | None => smoothingAlphaRef r
                      end;
                    displayIntervalRef :=
                      match savedSmoothingSpeed o with
                      | Some sp => Z_or (intervals sp) 700
                      | None => displayIntervalRef r
                      end;
                    lastDisplayUpdateRef := lastDisplayUpdateRef r;
                    sessionPeakRef := sessionPeakRef r;
                    eventPeakRef := eventPeakRef r;
                    isEventOccurring := isEventOccurring r |};
         view := {| displayDb := displayDb v;
                    peak := peak v;
                    history := history v;
                    isAlerting := isAlerting v;
                    events := events v;
                    sessionHistory := sessionHistory v;
                    settings :=
                      {| threshold :=
                           orElse (truthyZ (savedThreshold o)) (threshold s);
                         durationThreshold :=
                           orElse (truthyQ (savedDurationThreshold o))
                             (durationThreshold s);
                         calibrationOffset :=
                           orElse (savedCalibrationOffset o)
                             (calibrationOffset s);
                         smoothingSpeed :=
                           orElse (savedSmoothingSpeed o) (smoothingSpeed s) |} |};
         host := host st |}
  end.

(** The effects of the first commit in the order of their declaration: the
    load, then the settings effect with the values of the first render; the
    state the load has set causes a second render, after which the settings
    effect runs again with the loaded values. *)
Definition mountSettings (saved : option Saved) (st : App) : App :=
  let first := settingsEffect (settings (view st)) (loadSettings saved st) in
  settingsEffect (settings (view (loadSettings saved st))) first.

(** A device as [enumerateDevices] reports it. *)
Record MediaDeviceInfo : Set := {
  deviceId : string;
  kind : string;
  deviceLabel : string
}.

(** The [devices] and [selectedDevice] cells of lines 93-94. *)
Record DeviceState : Set := {
  devices : list MediaDeviceInfo;
  selectedDevice : string
}.

Definition isAudioInput (d : MediaDeviceInfo) : bool :=
  String.eqb (kind d) "audioinput".

(** The callback of lines 148-154.  [closureSelected] is the value of
    [selectedDevice] in the render that created the effect. *)
Definition enumerated (closureSelected : string)
    (items : list MediaDeviceInfo) (ds : DeviceState) : DeviceState :=
  let mics := filter isAudioInput items in
  {| devices := mics;
     selectedDevice :=
       match mics with
       | first :: _ =>
           if String.eqb closureSelected EmptyString then deviceId first
           else selectedDevice ds
       | [] => selectedDevice ds
       end |}.

(** Line 145, then the promise of line 148 resolving: the effect has no
    dependencies, so it was created by the first render, in which
    [selectedDevice] is the empty string of line 94. *)
Definition mountDevices (saved : option Saved)
    (items : list MediaDeviceInfo) : DeviceState :=
  let loaded :=
    {| devices := [];
       selectedDevice :=
         match saved with
         | Some o => orElse (truthyString (savedDeviceId o)) EmptyString
         | None => EmptyString
         end |} in
  enumerated EmptyString items loaded.

(** *** The ring of [CircularMeter] (lines 36-44) *)

Module Meter.

Local Open Scope R_scope.

Definition size : R := 320.
Definition stroke : R := 12.
Definition radius : R := size / 2 - stroke * 2.
Definition circumference : R := radius * 2 * PI.

Definition percentage (value : R) : R :=
  Rmin 100 (Rmax 0 (value / 120 * 100)).

Definition offset (value : R) : R :=
  circumference - percentage value / 100 * circumference.

End Meter.

(** *** The log export of the main process ([main.js], lines 115-135) *)

(** An entry of [logs] as the handler reads it. *)
Record LogEntry : Set := {
  entryTimestamp : string;
  entryDb : Z;
  entryLabel : string
}.

Definition newline : string := String (ascii_of_nat 10) EmptyString.

Definition quote : string := String (ascii_of_nat 34) EmptyString.

(** [rows.join(sep)]. *)
Fixpoint join (sep : string) (rows : list string) : string :=
  match rows with
  | [] => EmptyString
  | [r] => r
  | r :: rest => (r ++ sep ++ join sep rest)%string
  end.

Definition csvHeader : string :=
  ("Timestamp,Level (dB),Description" ++ newline)%string.

(** The template of line 129. *)
Definition csvRow (toString : Q -> string) (l : LogEntry) : string :=
  (quote ++ entryTimestamp l ++ quote ++ ","
   ++ toString (inject_Z (entryDb l)) ++ ","
   ++ quote ++ entryLabel l ++ quote)%string.

(** The handler: nothing for an empty log or when the dialog gives no path,
    else the path and the text handed to [writeFileSync]. *)
Definition exportLogs (toString : Q -> string) (logs : list LogEntry)
    (filePath : option string) : option (string * string) :=
  match logs with
  | [] => None
  | _ :: _ =>
      match truthyString filePath with
      | None => None
      | Some path =>
          Some (path, (csvHeader ++ join newline (map (csvRow toString) logs))%string)
      end
  end.

(** How often the character [c] occurs in [s]. *)
Fixpoint occurrences (c : ascii) (s : string) : nat :=
  match s with
  | EmptyString => O
  | String a rest =>
      ((if Ascii.eqb a c then 1 else 0) + occurrences c rest)%nat
  end.

(** A text that can stand between quotes in a row: no quote, no line
    break. *)
Definition csvSafe (s : string) : bool :=
  (occurrences (ascii_of_nat 34) s =? 0)%nat
  && (occurrences (ascii_of_nat 10) s =? 0)%nat
  && (occurrences (ascii_of_nat 13) s =? 0)%nat.

(** *** The window and the tray ([main.js], lines 9-92)

    The window is shown or hidden, it exists until a close request goes
    through, and [app.isQuitting] is raised by the Exit entry of the tray
    menu only. *)
Record Shell : Set := {
  visible : bool;
  alive : bool;
  isQuitting : bool
}.

Inductive ShellEvent : Set :=
| Minimize
| CloseRequest
| TrayClick
| TrayShowApp
| TrayExit
| ShowWindowIpc
| NotificationClick.

Definition hideWindow (sh : Shell) : Shell :=
  {| visible := false; alive := alive sh; isQuitting := isQuitting sh |}.

Definition showWindow (sh : Shell) : Shell :=
  {| visible := true; alive := alive sh; isQuitting := isQuitting sh |}.

(** The handler of ['close'] (lines 78-84): unless the application is
    quitting the request is cancelled and the window hidden; otherwise the
    window closes. *)
Definition closeRequest (sh : Shell) : Shell :=
  if isQuitting sh
  then {| visible := false; alive := false; isQuitting := true |}
  else hideWindow sh.

(** One event of the window or of the tray, on a window that still exists.
    Exit raises [app.isQuitting] and calls [app.quit()], which asks the
    window to close. *)
Definition shellStep (sh : Shell) (e : ShellEvent) : Shell :=
  if alive sh then
    match e with
    | Minimize => hideWindow sh
    | CloseRequest => closeRequest sh
    | TrayClick => if visible sh then hideWindow sh else showWindow sh
    | TrayShowApp | ShowWindowIpc | NotificationClick => showWindow sh
    | TrayExit =>
        closeRequest
          {| visible := visible sh; alive := alive sh; isQuitting := true |}
    end
  else sh.

Definition shellRun (sh : Shell) (evs : list ShellEvent) : Shell :=
  fold_left shellStep evs sh.

(** After [ready-to-show]. *)
Definition shellStart : Shell :=
  {| visible := true; alive := true; isQuitting := false |}.

Definition isExit (e : ShellEvent) : bool :=
  match e with TrayExit => true | _ => false end.

(** A few more concrete inputs. *)
Definition zeroedStorage : Saved :=
  {| savedThreshold := Some 0;
     savedDeviceId := None;
     savedDurationThreshold := Some 2%Q;
     savedCalibrationOffset := Some 0;
     savedSmoothingSpeed := Some fast |}.

Definition webcam : MediaDeviceInfo :=
  {| deviceId := "cam0"; kind := "videoinput"; deviceLabel := "Webcam" |}.

Definition builtInMic : MediaDeviceInfo :=
  {| deviceId := "default"; kind := "audioinput";
     deviceLabel := "Built-in microphone" |}.

Definition usbMic : MediaDeviceInfo :=
  {| deviceId := "usb1"; kind := "audioinput"; deviceLabel := "USB microphone" |}.

Definition sampleEntry : LogEntry :=
  {| entryTimestamp := "14:03:27"; entryDb := 84;
     entryLabel := "Vacuum / Traffic" |}.

(** A run of the timeout callback at [t] whose updater runs [lag] ms later. *)
Definition firingWith (t lag : Z) : Firing :=
  {| randomId := "k3j9x0q2a"; newDate := t + lag; nowAtNotify := t |}.
(* ================================================================== *)
(** * Properties *)

(** ** Estimator *)

Module EstimatorFacts.
Import Estimator.
Local Open Scope R_scope.

Lemma fold_left_shift (l : list R) (a : R) :
  fold_left (fun sum x => sum + x * x) l a =
  a + fold_right Rplus 0 (map (fun x => x * x) l).
Proof.
  revert a; induction l as [|x l IH]; intros a; simpl.
  - lra.
  - rewrite IH. lra.
Qed.

Lemma sum_of_squares_spec (l : list R) :
  sum_of_squares l = fold_right Rplus 0 (map (fun x => x * x) l).
Proof.
  unfold sum_of_squares. rewrite fold_left_shift. lra.
Qed.


Lemma Math_round_IZR (z : Z) : Math_round (IZR z) = z.
Proof.
  unfold Math_round. symmetry. apply Int_part_spec. lra.
Qed.

Lemma Rmax_IZR (a b : Z) : Rmax (IZR a) (IZR b) = IZR (Z.max a b).
Proof.
  destruct (Z.le_ge_cases a b) as [H|H].
  - rewrite Z.max_r by assumption. apply Rmax_right. now apply IZR_le.
  - rewrite Z.max_l by assumption. apply Rmax_left. now apply IZR_le.
Qed.

Lemma sum_of_squares_silence (l : list R) :
  Forall (fun x => x = 0) l -> sum_of_squares l = 0.
Proof.
  intros H. rewrite sum_of_squares_spec.
  induction H as [|x l Hx _ IH]; simpl.
  - reflexivity.
  - rewrite IH, Hx. lra.
Qed.

Lemma baseDb_silence (l : list R) :
  Forall (fun x => x = 0) l -> baseDb l = 0.
Proof.
  intros H. unfold baseDb, rms.
  rewrite (sum_of_squares_silence l H).
  unfold Rdiv. rewrite Rmult_0_l, sqrt_0.
  destruct (Rlt_dec (1 * / 1000000) 0) as [Hlt|_]; [lra | reflexivity].
Qed.

Lemma currentDb_silence (l : list R) (calibration : Z) :
  Forall (fun x => x = 0) l -> currentDb l calibration = Z.max 0 calibration.
Proof.
  intros H. unfold currentDb. rewrite (baseDb_silence l H), Rplus_0_l.
  rewrite Rmax_IZR. apply Math_round_IZR.
Qed.

End EstimatorFacts.

(** ** dB bands *)

Lemma getDbLabel_whisper (db : Z) : db < 30 -> getDbLabel db = "Whisper Quiet"%string.
Proof.
  intros H. unfold getDbLabel.
  destruct (Z.ltb_spec db 30) as [_|Hge]; [reflexivity | lia].
Qed.

Lemma getDbLabel_traffic (db : Z) :
  80 <= db < 90 -> getDbLabel db = "Vacuum / Traffic"%string.
Proof.
  intros H. unfold getDbLabel.
  repeat match goal with
         | |- context [?a <? ?b] =>
             destruct (Z.ltb_spec a b); try lia; try reflexivity
         end.
Qed.

Lemma getDbLabel_sound_system (db : Z) :
  90 <= db < 100 -> getDbLabel db = "Sound System"%string.
Proof.
  intros H. unfold getDbLabel.
  repeat match goal with
         | |- context [?a <? ?b] =>
             destruct (Z.ltb_spec a b); try lia; try reflexivity
         end.
Qed.

Lemma getDbLabel_top (db : Z) :
  100 <= db ->
  getDbLabel db = "Potential Damage!"%string
  /\ Earlier.getDbLabel db = "Potential Hearing Damage!"%string.
Proof.
  intros H. unfold getDbLabel, Earlier.getDbLabel.
  repeat match goal with
         | |- context [?a <? ?b] =>
             destruct (Z.ltb_spec a b); try lia
         end.
  split; reflexivity.
Qed.

Lemma getDbLabel_versions_agree (db : Z) :
  db < 100 -> Earlier.getDbLabel db = getDbLabel db.
Proof.
  intros H. unfold getDbLabel, Earlier.getDbLabel.
  repeat match goal with
         | |- context [?a <? ?b] =>
             destruct (Z.ltb_spec a b); try lia; try reflexivity
         end.
Qed.

(** ** The event loop *)

Section Detector.

Variable toString : Q -> string.

Lemma run_app (st : App) (a b : list Event) :
  run toString st (a ++ b) = run toString (run toString st a) b.
Proof. apply fold_left_app. Qed.

Lemma run_snoc (st : App) (a : list Event) (e : Event) :
  run toString st (a ++ [e]) = step toString (run toString st a) e.
Proof. now rewrite run_app. Qed.

Lemma run_cons (st : App) (e : Event) (a : list Event) :
  run toString st (e :: a) = run toString (step toString st e) a.
Proof. reflexivity. Qed.

Lemma qualifies_true (r : Refs) (currentDb : Z) (clk : Clock) :
  qualifies r currentDb clk = true ->
  above r currentDb = true
  /\ isEventOccurring r = false
  /\ (durationRef r <= sustainedDuration r clk)%Q
  /\ 7000 < now clk - lastNotifyTime r.
Proof.
  unfold qualifies. intros H.
  apply andb_prop in H as [H Hcool].
  apply andb_prop in H as [H Hdur].
  apply andb_prop in H as [Habove Hocc].
  repeat split.
  - assumption.
  - now apply negb_true_iff.
  - now apply Qle_bool_iff.
  - now apply Z.ltb_lt.
Qed.

Lemma not_above_not_qualifies (r : Refs) (currentDb : Z) (clk : Clock) :
  above r currentDb = false -> qualifies r currentDb clk = false.
Proof. unfold qualifies. now intros ->. Qed.

(** *** What a tick writes *)

Lemma update_timers (d : Z) (clk : Clock) (st : App) :
  timers (host (update_with d clk st))
  = if qualifies (refs st) d clk
    then timers (host st)
         ++ [ {| delay := 1000; currentDurationLimit := durationRef (refs st) |} ]
    else timers (host st).
Proof. reflexivity. Qed.

Lemma update_isEventOccurring (d : Z) (clk : Clock) (st : App) :
  isEventOccurring (refs (update_with d clk st))
  = if qualifies (refs st) d clk then true else isEventOccurring (refs st).
Proof. reflexivity. Qed.

Lemma update_eventPeakRef (d : Z) (clk : Clock) (st : App) :
  eventPeakRef (refs (update_with d clk st))
  = if above (refs st) d then Z.max (eventPeakRef (refs st)) d
    else eventPeakRef (refs st).
Proof. reflexivity. Qed.

Lemma update_loudStartTimeRef (d : Z) (clk : Clock) (st : App) :
  loudStartTimeRef (refs (update_with d clk st))
  = if above (refs st) d then Some (episodeStart (refs st) clk) else None.
Proof. reflexivity. Qed.

Lemma update_thresholdRef (d : Z) (clk : Clock) (st : App) :
  thresholdRef (refs (update_with d clk st)) = thresholdRef (refs st).
Proof. reflexivity. Qed.

Lemma qualifies_while_occurring (r : Refs) (d : Z) (clk : Clock) :
  isEventOccurring r = true -> qualifies r d clk = false.
Proof.
  intros H. unfold qualifies. rewrite H. simpl. now rewrite andb_false_r.
Qed.

(** *** One timer at most *)

Lemma pending_consistent_step (st : App) (e : Event) :
  pending_consistent st -> pending_consistent (step toString st e).
Proof.
  unfold pending_consistent. intros H.
  destruct e as [d clk|f| |s|]; simpl; try exact H.
  - destruct (qualifies (refs st) d clk) eqn:Hq.
    + apply qualifies_true in Hq as (_ & Hocc & _).
      rewrite Hocc in H. rewrite H. now eexists.
    + exact H.
  - unfold fire. destruct (timers (host st)) as [|tm rest] eqn:Ht.
    + rewrite Ht. exact H.
    + simpl. destruct (isEventOccurring (refs st)).
      * destruct H as [tm' H]. congruence.
      * discriminate.
Qed.

Lemma pending_consistent_run (evs : list Event) (st : App) :
  pending_consistent st -> pending_consistent (run toString st evs).
Proof.
  revert st. induction evs as [|e evs IH]; intros st H.
  - exact H.
  - rewrite run_cons. apply IH. now apply pending_consistent_step.
Qed.

Lemma pending_consistent_reachable (evs : list Event) :
  pending_consistent (run toString initial evs).
Proof. apply pending_consistent_run. reflexivity. Qed.

Lemma at_most_one_timer (st : App) :
  pending_consistent st -> (List.length (timers (host st)) <= 1)%nat.
Proof.
  unfold pending_consistent. destruct (isEventOccurring (refs st)).
  - intros [tm ->]. simpl. lia.
  - intros ->. simpl. lia.
Qed.

(** *** What the callbacks other than the timeout leave alone *)

Lemma step_keeps_pending (st : App) (e : Event) :
  isTimeout e = false ->
  isEventOccurring (refs st) = true ->
  timers (host (step toString st e)) = timers (host st)
  /\ isEventOccurring (refs (step toString st e)) = true
  /\ notifications (host (step toString st e)) = notifications (host st)
  /\ events (view (step toString st e)) = events (view st).
Proof.
  intros Hne Hocc.
  destruct e as [d clk|f| |s|]; simpl in *; try discriminate;
    try (repeat split; assumption).
  assert (Hq : qualifies (refs st) d clk = false).
  { unfold qualifies. rewrite Hocc. simpl. now rewrite andb_false_r. }
  rewrite Hq. repeat split; assumption.
Qed.

Lemma run_keeps_pending (evs : list Event) (st : App) :
  forallb (fun e => negb (isTimeout e)) evs = true ->
  isEventOccurring (refs st) = true ->
  timers (host (run toString st evs)) = timers (host st)
  /\ isEventOccurring (refs (run toString st evs)) = true
  /\ notifications (host (run toString st evs)) = notifications (host st)
  /\ events (view (run toString st evs)) = events (view st).
Proof.
  revert st. induction evs as [|e evs IH]; intros st Hall Hocc.
  - repeat split; assumption.
  - simpl in Hall. apply andb_prop in Hall as [He Hall].
    apply negb_true_iff in He.
    destruct (step_keeps_pending st e He Hocc) as (Ht & Ho & Hn & Hev).
    rewrite run_cons.
    destruct (IH (step toString st e) Hall Ho) as (Ht' & Ho' & Hn' & Hev').
    repeat split; congruence.
Qed.

(** *** The smoothing presets stay in force *)

Lemma settings_in_force_step (st : App) (e : Event) :
  smoothingAlphaRef (refs st) = spec_alpha (smoothingSpeed (settings (view st)))
  /\ displayIntervalRef (refs st)
     = spec_refreshInterval (smoothingSpeed (settings (view st))) ->
  smoothingAlphaRef (refs (step toString st e))
  = spec_alpha (smoothingSpeed (settings (view (step toString st e))))
  /\ displayIntervalRef (refs (step toString st e))
     = spec_refreshInterval (smoothingSpeed (settings (view (step toString st e)))).
Proof.
  intros H.
  destruct e as [d clk|f| |s|]; simpl; try exact H.
  - unfold fire. destruct (timers (host st)); [exact H | simpl; exact H].
  - destruct (smoothingSpeed s); split; reflexivity.
Qed.

Lemma settings_in_force (evs : list Event) :
  smoothingAlphaRef (refs (run toString initial evs))
  = spec_alpha (smoothingSpeed (settings (view (run toString initial evs))))
  /\ displayIntervalRef (refs (run toString initial evs))
     = spec_refreshInterval
         (smoothingSpeed (settings (view (run toString initial evs)))).
Proof.
  induction evs as [|e evs IH] using rev_ind.
  - split; reflexivity.
  - rewrite run_snoc. now apply settings_in_force_step.
Qed.

(** C6 (smoother).  In every state the component can reach, the coefficient
    and the refresh interval in force are those of the table for the
    selected smoothing speed (slow 0.10 and 1000 ms, medium 0.25 and 700 ms,
    fast 0.60 and 400 ms); a tick always replaces [smoothedDb] by
    [alpha * currentDb + (1 - alpha) * smoothedDb], whether or not the
    display is refreshed; and the display value is replaced by the new
    [smoothedDb], and [lastDisplayUpdateMs] by [now], exactly on the ticks
    where [now - lastDisplayUpdateMs] exceeds the refresh interval. *)
Theorem C6_smoother (evs : list Event) (currentDb : Z) (clk : Clock) :
  let st := run toString initial evs in
  let speed := smoothingSpeed (settings (view st)) in
  let st' := update_with currentDb clk st in
  (spec_alpha slow = 1 # 10 /\ spec_refreshInterval slow = 1000)
  /\ (spec_alpha medium = 1 # 4 /\ spec_refreshInterval medium = 700)
  /\ (spec_alpha fast = 3 # 5 /\ spec_refreshInterval fast = 400)
  /\ smoothingAlphaRef (refs st) = spec_alpha speed
  /\ displayIntervalRef (refs st) = spec_refreshInterval speed
  /\ smoothedDbRef (refs st')
     = (spec_alpha speed * inject_Z currentDb
        + (1 - spec_alpha speed) * smoothedDbRef (refs st))%Q
  /\ (if spec_refreshInterval speed <? now clk - lastDisplayUpdateRef (refs st)
      then displayDb (view st') = smoothedDbRef (refs st')
           /\ lastDisplayUpdateRef (refs st') = now clk
      else displayDb (view st') = displayDb (view st)
           /\ lastDisplayUpdateRef (refs st') = lastDisplayUpdateRef (refs st)).
Proof.
  intros st speed st'.
  destruct (settings_in_force evs) as [Ha Hi].
  fold st in Ha, Hi. fold speed in Ha, Hi.
  repeat split; try reflexivity; try assumption.
  - unfold st'. simpl. now rewrite Ha.
  - unfold st'. simpl. unfold displayDue. rewrite Hi.
    destruct (spec_refreshInterval speed <? now clk - lastDisplayUpdateRef (refs st));
      split; reflexivity.
Qed.

(** C3 (emission).  When a tick qualifies, a timer of 1000 ms is armed and
    [isEventOccurring] is raised.  When that timer runs, after one more tick
    has been processed, the peak it reports is the value [eventPeakDb] has
    then (which includes the reading of the later tick when that was above
    threshold), not the value at the qualifying tick; the notifier receives
    the title 'Sustained Noise Detected!' and the body 'Level reached {peak}
    dB for {durationThresholdSec}+ sec.'; one SoundEvent with that peak and
    its dB band is put in front of the log, which is cut at 50 entries;
    [lastNotifyMs] becomes the clock reading of the callback;
    [isEventOccurring] is lowered and [eventPeakDb] is reset to 0. *)
Theorem C3_emission (pre : list Event) (currentDb : Z) (clk : Clock)
    (laterDb : Z) (laterClk : Clock) (f : Firing) :
  qualifies (refs (run toString initial pre)) currentDb clk = true ->
  let st := run toString initial pre in
  let limit := durationRef (refs st) in
  let scheduled := update_with currentDb clk st in
  let later := update_with laterDb laterClk scheduled in
  let peak := eventPeakRef (refs later) in
  let fired := fire toString f later in
  timers (host scheduled) = [ {| delay := 1000; currentDurationLimit := limit |} ]
  /\ isEventOccurring (refs scheduled) = true
  /\ peak = (if thresholdRef (refs st) <? laterDb
             then Z.max (Z.max (eventPeakRef (refs st)) currentDb) laterDb
             else Z.max (eventPeakRef (refs st)) currentDb)
  /\ notifications (host fired)
     = notifications (host st)
       ++ [ {| title := "Sustained Noise Detected!";
               body := ("Level reached " ++ toString (inject_Z peak)
                        ++ " dB for " ++ toString limit ++ "+ sec.")%string |} ]
  /\ events (view fired)
     = firstn 50 ({| id := randomId f;
                     timestamp := newDate f;
                     db := peak;
                     label := getDbLabel peak |} :: events (view st))
  /\ lastNotifyTime (refs fired) = nowAtNotify f
  /\ isEventOccurring (refs fired) = false
  /\ eventPeakRef (refs fired) = 0.
Proof.
  intros Hq st limit scheduled later peak fired.
  fold st in Hq.
  pose proof (pending_consistent_reachable pre) as Hpc.
  fold st in Hpc. unfold pending_consistent in Hpc.
  destruct (qualifies_true _ _ _ Hq) as (Habove & Hocc & _ & _).
  rewrite Hocc in Hpc.
  assert (Hsched : timers (host scheduled)
                   = [ {| delay := 1000; currentDurationLimit := limit |} ]).
  { unfold scheduled. simpl. now rewrite Hq, Hpc. }
  assert (Hflag : isEventOccurring (refs scheduled) = true).
  { unfold scheduled. simpl. now rewrite Hq. }
  assert (Hlater : timers (host later)
                   = [ {| delay := 1000; currentDurationLimit := limit |} ]).
  { unfold later. rewrite update_timers.
    now rewrite (qualifies_while_occurring _ _ _ Hflag). }
  assert (Hpeak : peak = (if thresholdRef (refs st) <? laterDb
             then Z.max (Z.max (eventPeakRef (refs st)) currentDb) laterDb
             else Z.max (eventPeakRef (refs st)) currentDb)).
  { unfold peak, later. rewrite update_eventPeakRef. unfold above at 1.
    unfold scheduled. rewrite update_thresholdRef, update_eventPeakRef.
    now rewrite Habove. }
  repeat split; try assumption.
  - unfold fired, fire. rewrite Hlater. reflexivity.
  - unfold fired, fire. rewrite Hlater. reflexivity.
  - unfold fired, fire. now rewrite Hlater.
  - unfold fired, fire. now rewrite Hlater.
  - unfold fired, fire. now rewrite Hlater.
Qed.

(** C10 (the pending emission cannot be cancelled).  Once a tick has
    qualified, exactly one timer of 1000 ms is armed and [isEventOccurring]
    is up, and both stay so through any further ticks (at or below the
    threshold, or above it), aggregator runs and settings changes: none of
    them disarms the timer, sends a notification or touches the log.  When
    the timer then runs, exactly one notification is sent and exactly one
    SoundEvent is put in front of the log, and nothing stays armed.  And in
    every reachable state at most one emission is pending. *)
Theorem C10_pending_emission (pre : list Event) (currentDb : Z) (clk : Clock)
    (between : list Event) (f : Firing) (any : list Event) :
  qualifies (refs (run toString initial pre)) currentDb clk = true ->
  forallb (fun e => negb (isTimeout e)) between = true ->
  let st := run toString initial pre in
  let waiting := run toString st (AnimationFrame currentDb clk :: between) in
  let fired := step toString waiting (TimeoutFires f) in
  let peak := eventPeakRef (refs waiting) in
  timers (host waiting)
  = [ {| delay := 1000; currentDurationLimit := durationRef (refs st) |} ]
  /\ isEventOccurring (refs waiting) = true
  /\ notifications (host waiting) = notifications (host st)
  /\ events (view waiting) = events (view st)
  /\ notifications (host fired)
     = notifications (host st)
       ++ [ {| title := "Sustained Noise Detected!";
               body := notificationBody toString peak (durationRef (refs st)) |} ]
  /\ events (view fired)
     = firstn 50 ({| id := randomId f;
                     timestamp := newDate f;
                     db := peak;
                     label := getDbLabel peak |} :: events (view st))
  /\ timers (host fired) = []
  /\ (List.length (timers (host (run toString initial any))) <= 1)%nat.
Proof.
  intros Hq Hbetween st waiting fired peak.
  fold st in Hq.
  pose proof (pending_consistent_reachable pre) as Hpc.
  fold st in Hpc. unfold pending_consistent in Hpc.
  destruct (qualifies_true _ _ _ Hq) as (_ & Hocc & _ & _).
  rewrite Hocc in Hpc.
  set (scheduled := update_with currentDb clk st).
  assert (Hsched : timers (host scheduled)
      = [ {| delay := 1000; currentDurationLimit := durationRef (refs st) |} ]).
  { unfold scheduled. simpl. now rewrite Hq, Hpc. }
  assert (Hflag : isEventOccurring (refs scheduled) = true).
  { unfold scheduled. simpl. now rewrite Hq. }
  destruct (run_keeps_pending between scheduled Hbetween Hflag)
    as (Ht & Ho & Hn & He).
  change (run toString scheduled between) with waiting in Ht, Ho, Hn, He.
  rewrite Hsched in Ht.
  assert (Hn0 : notifications (host scheduled) = notifications (host st))
    by reflexivity.
  assert (He0 : events (view scheduled) = events (view st)) by reflexivity.
  repeat split.
  - exact Ht.
  - exact Ho.
  - congruence.
  - congruence.
  - unfold fired. simpl. unfold fire. rewrite Ht. simpl. now rewrite Hn, Hn0.
  - unfold fired. simpl. unfold fire. rewrite Ht. simpl. now rewrite He, He0.
  - unfold fired. simpl. unfold fire. rewrite Ht. reflexivity.
  - apply at_most_one_timer, pending_consistent_reachable.
Qed.

(** C9 (dB bands), as the code has it.  Every value below 30 is labelled
    'Whisper Quiet'; 'Vacuum / Traffic' is the band from 80 up to but not
    including 90; the value 90, like every value from 90 up to but not
    including 100, is labelled 'Sound System'; every value at or above 100
    is labelled 'Potential Damage!' ('Potential Hearing Damage!' in the
    earlier copy of the component, which agrees on every other band); and the
    SoundEvent that the timeout callback logs carries the label this same
    function gives to the captured peak. *)
Theorem C9_bands (low mid upper high : Z) (tm : Timer) (f : Firing) (st : App) :
  low < 30 -> 80 <= mid < 90 -> 90 <= upper < 100 -> 100 <= high ->
  getDbLabel low = "Whisper Quiet"%string
  /\ getDbLabel mid = "Vacuum / Traffic"%string
  /\ getDbLabel 90 = "Sound System"%string
  /\ getDbLabel upper = "Sound System"%string
  /\ getDbLabel high = "Potential Damage!"%string
  /\ Earlier.getDbLabel high = "Potential Hearing Damage!"%string
  /\ Earlier.getDbLabel low = getDbLabel low
  /\ Earlier.getDbLabel mid = getDbLabel mid
  /\ Earlier.getDbLabel upper = getDbLabel upper
  /\ option_map label (hd_error (events (view (timeoutCallback toString tm f st))))
     = Some (getDbLabel (eventPeakRef (refs st)))
  /\ option_map db (hd_error (events (view (timeoutCallback toString tm f st))))
     = Some (eventPeakRef (refs st)).
Proof.
  intros Hlow Hmid Hupper Hhigh.
  destruct (getDbLabel_top high Hhigh) as [Htop Htop'].
  repeat split;
    auto using getDbLabel_whisper, getDbLabel_traffic, getDbLabel_sound_system.
  - apply getDbLabel_versions_agree. lia.
  - apply getDbLabel_versions_agree. lia.
  - apply getDbLabel_versions_agree. lia.
Qed.

(** *** Episodes are contiguous *)

Lemma fire_loudStartTimeRef (f : Firing) (st : App) :
  loudStartTimeRef (refs (fire toString f st)) = loudStartTimeRef (refs st).
Proof. unfold fire. now destruct (timers (host st)). Qed.

Lemma step_loudStartTimeRef (st : App) (e : Event) :
  loudStartTimeRef (refs (step toString st e))
  = match e with
    | AnimationFrame d clk =>
        if above (refs st) d then Some (episodeStart (refs st) clk) else None
    | _ => loudStartTimeRef (refs st)
    end.
Proof.
  destruct e; try reflexivity. apply fire_loudStartTimeRef.
Qed.

Lemma loud_run_app (st : App) (a b : list Event) :
  loud_run toString st (a ++ b)
  = loud_run toString st a && loud_run toString (run toString st a) b.
Proof.
  revert st. induction a as [|e a IH]; intros st; simpl.
  - reflexivity.
  - now rewrite IH, andb_assoc.
Qed.

Lemma episode_inv_holds (s0 : App) (evs : list Event) :
  loudStartTimeRef (refs s0) = None -> episode_inv toString s0 evs.
Proof.
  intros H0. unfold episode_inv.
  induction evs as [|e evs IH] using rev_ind.
  - simpl. now rewrite H0.
  - rewrite run_snoc, step_loudStartTimeRef.
    assert (Hext : forall s,
      loudStartTimeRef (refs (run toString s0 evs)) = Some s ->
      (match e with
       | AnimationFrame d _ => above (refs (run toString s0 evs)) d
       | _ => true
       end = true) ->
      exists pre d0 c0 rest,
        evs ++ [e] = pre ++ AnimationFrame d0 c0 :: rest
        /\ loud_run toString (run toString s0 pre)
             (AnimationFrame d0 c0 :: rest) = true
        /\ s = nowAtStart c0).
    { intros s Hs He. rewrite Hs in IH.
      destruct IH as (pre & d0 & c0 & rest & Hevs & Hloud & Hstart).
      exists pre, d0, c0, (rest ++ [e]). split; [|split].
      - rewrite Hevs, <- app_assoc. reflexivity.
      - change (AnimationFrame d0 c0 :: rest ++ [e])
          with ((AnimationFrame d0 c0 :: rest) ++ [e]).
        rewrite loud_run_app, Hloud, <- run_app, <- Hevs. simpl.
        now rewrite He.
      - exact Hstart. }
    destruct e as [d clk|f| |s|];
      try (destruct (loudStartTimeRef (refs (run toString s0 evs))) as [s'|] eqn:Hs;
           [now apply Hext | exact I]).
    destruct (above (refs (run toString s0 evs)) d) eqn:Habove; [|exact I].
    assert (Hfresh : exists pre d0 c0 rest,
        evs ++ [AnimationFrame d clk] = pre ++ AnimationFrame d0 c0 :: rest
        /\ loud_run toString (run toString s0 pre)
             (AnimationFrame d0 c0 :: rest) = true
        /\ nowAtStart clk = nowAtStart c0).
    { exists evs, d, clk, []. repeat split. simpl. now rewrite Habove. }
    unfold episodeStart.
    destruct (loudStartTimeRef (refs (run toString s0 evs))) as [s'|] eqn:Hs.
    + destruct (s' =? 0); [exact Hfresh | now apply Hext].
    + exact Hfresh.
Qed.

(** C1 (sustain contiguity).  A tick whose reading is at or below the
    threshold clears [loudStartMs] and sets alerting to false.  And whenever
    a tick qualifies, in a run that starts from the initial state or right
    after such a low tick, the run ends in a stretch of ticks that all read
    above threshold, the qualifying tick last, whose first tick lies after
    the low tick and whose duration up to the qualifying tick is at least
    [durationThresholdSec]: time above threshold before a low tick counts
    for nothing. *)
Theorem C1_sustain_contiguity (st : App) (lowDb : Z) (lowClk : Clock)
    (s0 : App) (evs : list Event) (currentDb : Z) (clk : Clock) :
  lowDb <= thresholdRef (refs st) ->
  s0 = initial \/ s0 = update_with lowDb lowClk st ->
  qualifies (refs (run toString s0 evs)) currentDb clk = true ->
  loudStartTimeRef (refs (update_with lowDb lowClk st)) = None
  /\ isAlerting (view (update_with lowDb lowClk st)) = false
  /\ timers (host (update_with lowDb lowClk st)) = timers (host st)
  /\ exists pre d0 c0 rest,
       evs ++ [AnimationFrame currentDb clk]
       = pre ++ AnimationFrame d0 c0 :: rest
       /\ loud_run toString (run toString s0 pre)
            (AnimationFrame d0 c0 :: rest) = true
       /\ (durationRef (refs (run toString s0 evs))
           <= inject_Z (nowAtCheck clk - nowAtStart c0) / inject_Z 1000)%Q.
Proof.
  intros Hlow Hs0 Hq.
  assert (Hbelow : above (refs st) lowDb = false).
  { unfold above. apply Z.ltb_ge. exact Hlow. }
  assert (Hreset : loudStartTimeRef (refs (update_with lowDb lowClk st)) = None).
  { rewrite update_loudStartTimeRef. now rewrite Hbelow. }
  split; [exact Hreset|].
  split; [simpl; exact Hbelow|].
  split.
  { rewrite update_timers.
    now rewrite (not_above_not_qualifies _ _ lowClk Hbelow). }
  assert (H0 : loudStartTimeRef (refs s0) = None).
  { destruct Hs0 as [-> | ->]; [reflexivity | exact Hreset]. }
  pose proof (episode_inv_holds s0 (evs ++ [AnimationFrame currentDb clk]) H0)
    as Hinv.
  unfold episode_inv in Hinv.
  destruct (qualifies_true _ _ _ Hq) as (Habove & _ & Hdur & _).
  rewrite run_snoc in Hinv. simpl in Hinv. rewrite Habove in Hinv.
  destruct Hinv as (pre & d0 & c0 & rest & Hevs & Hloud & Hstart).
  exists pre, d0, c0, rest. split; [exact Hevs|]. split; [exact Hloud|].
  unfold sustainedDuration in Hdur. now rewrite Hstart in Hdur.
Qed.

(** *** The clock *)

Lemma last_cons_default (x t : Z) (a : list Z) : last (x :: a) t = last a x.
Proof.
  revert x t. induction a as [|y a IH]; intros x t.
  - reflexivity.
  - change (last (x :: y :: a) t) with (last (y :: a) t).
    now rewrite (IH y t), (IH y x).
Qed.

Lemma ascending_from_app (t : Z) (a b : list Z) :
  ascending_from t (a ++ b) = ascending_from t a && ascending_from (last a t) b.
Proof.
  revert t. induction a as [|x a IH]; intros t.
  - reflexivity.
  - change (ascending_from t ((x :: a) ++ b))
      with ((t <=? x) && ascending_from x (a ++ b)).
    now rewrite IH, andb_assoc, last_cons_default.
Qed.

Lemma last_app_default (t : Z) (a b : list Z) :
  last (a ++ b) t = last b (last a t).
Proof.
  revert t a. induction b as [|y b IH] using rev_ind; intros t a.
  - now rewrite app_nil_r.
  - rewrite app_assoc, !last_last. reflexivity.
Qed.

Lemma clock_after_app (t : Z) (a b : list Event) :
  clock_after t (a ++ b) = clock_after (clock_after t a) b.
Proof.
  unfold clock_after. now rewrite flat_map_app, last_app_default.
Qed.

Lemma chronological_from (evs : list Event) :
  chronological evs = true ->
  exists t0, ascending_from t0 (flat_map readings evs) = true.
Proof. intros H. now exists (hd 0 (flat_map readings evs)). Qed.

Lemma ascending_events_app (t : Z) (a b : list Event) :
  ascending_from t (flat_map readings (a ++ b)) = true ->
  ascending_from t (flat_map readings a) = true
  /\ ascending_from (clock_after t a) (flat_map readings b) = true.
Proof.
  rewrite flat_map_app, ascending_from_app. intros H.
  now apply andb_prop in H.
Qed.

(** *** The cooldown invariant *)

Lemma In_firstn {A : Type} (n : nat) (l : list A) (x : A) :
  In x (firstn n l) -> In x l.
Proof.
  intros H. rewrite <- (firstn_skipn n l). apply in_or_app. now left.
Qed.

Lemma newest_first_firstn (n : nat) (log : list SoundEvent) :
  newest_first log -> newest_first (firstn n log).
Proof.
  revert n. induction log as [|e log IH]; intros n H.
  - now rewrite firstn_nil.
  - destruct n as [|n]; [exact I|].
    destruct H as [Hhead Htail]. simpl. split.
    + intros e' Hin. apply Hhead. now apply (In_firstn n log).
    + now apply IH.
Qed.

Lemma detector_inv_weaken (L L' : Z) (st : App) (t : Z) :
  detector_inv L st t -> L' <= lastNotifyTime (refs st) ->
  detector_inv L' st t.
Proof.
  unfold detector_inv. intros (_ & H) HL'. now split.
Qed.

Lemma detector_inv_step (L : Z) (st : App) (t : Z) (e : Event) :
  detector_inv L st t ->
  ascending_from t (readings e) = true ->
  detector_inv L (step toString st e) (last (readings e) t).
Proof.
  intros (HL & Hpc & Harm & Hlog & Hsorted) Hclock.
  pose proof (pending_consistent_step st e Hpc) as Hpc'.
  destruct e as [d clk|f| |s|];
    try (repeat split; assumption).
  - (* a tick *)
    simpl in Hclock.
    apply andb_prop in Hclock as [H1 Hclock].
    apply andb_prop in Hclock as [H2 Hclock].
    apply andb_prop in Hclock as [H3 _].
    apply Z.leb_le in H1, H2, H3.
    split; [exact HL|]. split; [exact Hpc'|].
    change (last (readings (AnimationFrame d clk)) t) with (nowAtCheck clk).
    split; [|split; [|exact Hsorted]].
    + unfold armed. simpl.
      destruct (qualifies (refs st) d clk) eqn:Hq.
      * intros _. apply qualifies_true in Hq as (_ & _ & _ & Hcool). lia.
      * intros Ha. specialize (Harm Ha). lia.
    + intros e Hin. specialize (Hlog e Hin). lia.
  - (* the timeout: [Date.now()] first, the updater's [new Date()] after *)
    simpl in Hclock.
    apply andb_prop in Hclock as [H1 Hclock].
    apply andb_prop in Hclock as [H2 _].
    apply Z.leb_le in H1, H2.
    change (last (readings (TimeoutFires f)) t) with (newDate f).
    cbn -[firstn] in Hpc' |- *. unfold fire in *.
    unfold armed in Harm.
    destruct (timers (host st)) as [|tm rest] eqn:Ht.
    + unfold detector_inv. repeat split; try assumption.
      * unfold armed. rewrite Ht. discriminate.
      * intros e Hin. specialize (Hlog e Hin). lia.
    + specialize (Harm eq_refl). unfold detector_inv.
      assert (Hrest : rest = []).
      { unfold pending_consistent in Hpc. rewrite Ht in Hpc.
        destruct (isEventOccurring (refs st)).
        - destruct Hpc as [tm' Hpc]. congruence.
        - discriminate. }
      subst rest. cbn -[firstn].
      split; [lia|]. split; [exact Hpc'|].
      split; [unfold armed; simpl; discriminate|].
      assert (Hnew : newest_first
                ({| id := randomId f; timestamp := newDate f;
                    db := eventPeakRef (refs st);
                    label := getDbLabel (eventPeakRef (refs st)) |}
                 :: events (view st))).
      { simpl. split; [|exact Hsorted].
        intros e' Hin. specialize (Hlog e' Hin). lia. }
      split.
      * intros e Hin. apply In_firstn in Hin.
        destruct Hin as [<- | Hin]; simpl; [lia|].
        specialize (Hlog e Hin). lia.
      * now apply newest_first_firstn.
Qed.

Lemma detector_inv_run (L : Z) (evs : list Event) (st : App) (t : Z) :
  detector_inv L st t ->
  ascending_from t (flat_map readings evs) = true ->
  detector_inv L (run toString st evs) (clock_after t evs).
Proof.
  revert st t. induction evs as [|e evs IH]; intros st t Hinv Hclock.
  - exact Hinv.
  - change (e :: evs) with ([e] ++ evs) in *.
    apply ascending_events_app in Hclock as [He Hrest].
    rewrite clock_after_app, run_app.
    unfold clock_after in He, Hrest |- * at 2. simpl in He, Hrest |- *.
    rewrite app_nil_r in He, Hrest |- *.
    apply IH; [|exact Hrest].
    now apply detector_inv_step.
Qed.

Lemma detector_inv_initial (t : Z) : detector_inv 0 initial t.
Proof.
  unfold detector_inv, pending_consistent, armed. simpl.
  repeat split; try lia; try discriminate; try contradiction.
Qed.

Lemma fire_lastNotifyTime (f : Firing) (st : App) :
  armed st = true ->
  lastNotifyTime (refs (fire toString f st)) = nowAtNotify f.
Proof.
  unfold armed, fire. destruct (timers (host st)); [discriminate | reflexivity].
Qed.

Lemma fire_events (f : Firing) (st : App) :
  armed st = true ->
  events (view (fire toString f st))
  = firstn 50 ({| id := randomId f;
                  timestamp := newDate f;
                  db := eventPeakRef (refs st);
                  label := getDbLabel (eventPeakRef (refs st)) |}
               :: events (view st)).
Proof.
  unfold armed, fire. destruct (timers (host st)); [discriminate | reflexivity].
Qed.

(** C2 (cooldown).  A tick never qualifies unless [now - lastNotifyMs]
    exceeds 7000, and [lastNotifyMs] is set by the timeout callback, at the
    moment it notifies, to the clock reading it takes then (not at the end
    of an episode).  Hence, in any run from the initial state during which
    the clock does not go backwards, two runs of the timeout callback that
    both found a timer armed, and so each sent a notification and put one
    SoundEvent in front of the log, are more than 7000 ms apart, whatever
    happened between them.  The timestamp of a logged SoundEvent is a
    reading of the clock taken after the notification, when the state
    updater runs: it is not earlier than its own notification, and that of
    the second event is more than 7000 ms after the first notification. *)
Theorem C2_cooldown (a b c : list Event) (f1 f2 : Firing)
    (r : Refs) (currentDb : Z) (clk : Clock) :
  chronological (a ++ TimeoutFires f1 :: b ++ TimeoutFires f2 :: c) = true ->
  armed (run toString initial a) = true ->
  armed (run toString initial (a ++ TimeoutFires f1 :: b)) = true ->
  qualifies r currentDb clk && negb (7000 <? now clk - lastNotifyTime r) = false
  /\ lastNotifyTime (refs (run toString initial (a ++ [TimeoutFires f1])))
     = nowAtNotify f1
  /\ lastNotifyTime
       (refs (run toString initial (a ++ TimeoutFires f1 :: b ++ [TimeoutFires f2])))
     = nowAtNotify f2
  /\ 7000 < nowAtNotify f2 - nowAtNotify f1
  /\ events (view (run toString initial (a ++ [TimeoutFires f1])))
     = firstn 50
         ({| id := randomId f1;
             timestamp := newDate f1;
             db := eventPeakRef (refs (run toString initial a));
             label := getDbLabel (eventPeakRef (refs (run toString initial a))) |}
          :: events (view (run toString initial a)))
  /\ events
       (view (run toString initial (a ++ TimeoutFires f1 :: b ++ [TimeoutFires f2])))
     = firstn 50
         ({| id := randomId f2;
             timestamp := newDate f2;
             db := eventPeakRef
                     (refs (run toString initial (a ++ TimeoutFires f1 :: b)));
             label := getDbLabel
                        (eventPeakRef
                           (refs (run toString initial
                                    (a ++ TimeoutFires f1 :: b)))) |}
          :: events (view (run toString initial (a ++ TimeoutFires f1 :: b))))
  /\ nowAtNotify f1 <= newDate f1
  /\ nowAtNotify f2 <= newDate f2
  /\ 7000 < newDate f2 - nowAtNotify f1.
Proof.
  intros Hchrono Harm1 Harm2.
  split.
  { unfold qualifies.
    destruct (7000 <? now clk - lastNotifyTime r); cbn [negb];
      rewrite ?andb_true_r, ?andb_false_r; reflexivity. }
  assert (Hset : lastNotifyTime (refs (run toString initial (a ++ [TimeoutFires f1])))
                 = nowAtNotify f1).
  { rewrite run_snoc. simpl. now apply fire_lastNotifyTime. }
  split; [exact Hset|].
  assert (Hsplit : a ++ TimeoutFires f1 :: b ++ [TimeoutFires f2]
                   = (a ++ TimeoutFires f1 :: b) ++ [TimeoutFires f2]).
  { rewrite <- app_assoc. reflexivity. }
  rewrite Hsplit.
  split; [rewrite run_snoc; simpl; now apply fire_lastNotifyTime|].
  assert (Hlog1 : events (view (run toString initial (a ++ [TimeoutFires f1])))
     = firstn 50
         ({| id := randomId f1;
             timestamp := newDate f1;
             db := eventPeakRef (refs (run toString initial a));
             label := getDbLabel (eventPeakRef (refs (run toString initial a))) |}
          :: events (view (run toString initial a)))).
  { rewrite run_snoc. cbn [step]. now apply fire_events. }
  assert (Hlog2 : events
       (view (run toString initial ((a ++ TimeoutFires f1 :: b) ++ [TimeoutFires f2])))
     = firstn 50
         ({| id := randomId f2;
             timestamp := newDate f2;
             db := eventPeakRef
                     (refs (run toString initial (a ++ TimeoutFires f1 :: b)));
             label := getDbLabel
                        (eventPeakRef
                           (refs (run toString initial
                                    (a ++ TimeoutFires f1 :: b)))) |}
          :: events (view (run toString initial (a ++ TimeoutFires f1 :: b))))).
  { rewrite run_snoc. cbn [step]. now apply fire_events. }
  apply chronological_from in Hchrono as [t0 Hclock].
  apply ascending_events_app in Hclock as [Ha Hclock].
  change (TimeoutFires f1 :: b ++ TimeoutFires f2 :: c)
    with ([TimeoutFires f1] ++ b ++ [TimeoutFires f2] ++ c) in Hclock.
  apply ascending_events_app in Hclock as [Hf1 Hclock].
  apply ascending_events_app in Hclock as [Hb Hclock].
  apply ascending_events_app in Hclock as [Hf2 _].
  pose proof (detector_inv_run 0 a initial t0 (detector_inv_initial t0) Ha)
    as Hinv.
  pose proof (detector_inv_run 0 _ _ _ Hinv Hf1) as Hinv1.
  rewrite <- run_app in Hinv1.
  apply detector_inv_weaken with (L' := nowAtNotify f1) in Hinv1;
    [|rewrite Hset; lia].
  pose proof (detector_inv_run _ _ _ _ Hinv1 Hb) as Hinv2.
  rewrite <- run_app, <- app_assoc in Hinv2.
  change ([TimeoutFires f1] ++ b) with (TimeoutFires f1 :: b) in Hinv2.
  destruct Hinv2 as (HL & _ & Hcool & _).
  specialize (Hcool Harm2).
  remember (clock_after (clock_after (clock_after t0 a) [TimeoutFires f1]) b)
    as t2 eqn:Et2.
  remember (clock_after t0 a) as t1 eqn:Et1.
  remember (lastNotifyTime
              (refs (run toString initial (a ++ TimeoutFires f1 :: b))))
    as last2 eqn:El2.
  assert (Horder : nowAtNotify f1 <= newDate f1
                   /\ t2 <= nowAtNotify f2 /\ nowAtNotify f2 <= newDate f2).
  { clear - Hf1 Hf2. simpl in Hf1, Hf2.
    apply andb_prop in Hf1 as [_ Hf1]. apply andb_prop in Hf1 as [Hf1 _].
    apply andb_prop in Hf2 as [Hf2 Hf2']. apply andb_prop in Hf2' as [Hf2' _].
    apply Z.leb_le in Hf1, Hf2, Hf2'. lia. }
  destruct Horder as (Ho1 & Ho2 & Ho3).
  split; [lia|]. split; [exact Hlog1|]. split; [exact Hlog2|].
  repeat split; lia.
Qed.

(** *** Bounded buffers *)

Lemma slice_last_length {A : Type} (n : nat) (a : list A) :
  (List.length (slice_last n a) <= n)%nat.
Proof. unfold slice_last. rewrite length_skipn. lia. Qed.

Lemma slice_last_suffix {A : Type} (n : nat) (a : list A) :
  a = firstn (List.length a - n) a ++ slice_last n a.
Proof. unfold slice_last. now rewrite firstn_skipn. Qed.

Lemma shifted_history_length (h : list Z) (d : Z) :
  (List.length h <= 100)%nat ->
  (List.length (skipn 1 h ++ [d]) <= 100)%nat.
Proof.
  intros H. rewrite length_app, length_skipn. simpl. lia.
Qed.

Lemma buffers_bounded_step (st : App) (e : Event) :
  buffers_bounded st -> buffers_bounded (step toString st e).
Proof.
  unfold buffers_bounded. intros (Hh & Hs & He).
  destruct e as [d clk|f| |s|]; cbn -[firstn skipn slice_last repeat].
  - repeat split; try assumption.
    destruct (Z.rem (now clk) 3 =? 0); [|assumption].
    now apply shifted_history_length.
  - unfold fire. destruct (timers (host st)) as [|tm rest].
    + now repeat split.
    + cbn -[firstn]. repeat split; try assumption. apply firstn_le_length.
  - repeat split; try assumption. unfold sessionUpdater.
    apply slice_last_length.
  - now repeat split.
  - repeat split; try assumption. rewrite repeat_length. lia.
Qed.

Lemma buffers_bounded_run (evs : list Event) (st : App) :
  buffers_bounded st -> buffers_bounded (run toString st evs).
Proof.
  revert st. induction evs as [|e evs IH]; intros st H.
  - exact H.
  - rewrite run_cons. apply IH. now apply buffers_bounded_step.
Qed.

Lemma buffers_bounded_initial : buffers_bounded initial.
Proof.
  unfold buffers_bounded. cbn -[repeat]. rewrite repeat_length.
  repeat split; simpl; lia.
Qed.

(** C8 (bounded buffers).  In every state reached from the initial one,
    whatever the ticks, timeouts, aggregator runs, settings changes and
    device changes that led to it, and whatever the clock did, the live
    history holds at most 100 entries, the session buffer at most 480 and
    the SoundEvent log at most 50; what an aggregator run keeps is the tail
    end of the old buffer followed by the entry it appends (the value its
    updater finds in [sessionPeak], which the callback has reset to 0 by
    then), so the entries it drops are the oldest.  And after a run during which the clock did not
    go backwards the log is ordered newest first: no entry is older than an
    entry behind it. *)
Theorem C8_bounded_buffers (evs ordered : list Event) :
  chronological ordered = true ->
  (List.length (history (view (run toString initial evs))) <= 100)%nat
  /\ (List.length (sessionHistory (view (run toString initial evs))) <= 480)%nat
  /\ (List.length (events (view (run toString initial evs))) <= 50)%nat
  /\ (exists dropped,
        sessionHistory (view (run toString initial evs)) ++ [0]
        = dropped
          ++ sessionHistory
               (view (step toString (run toString initial evs) IntervalFires)))
  /\ newest_first (events (view (run toString initial ordered))).
Proof.
  intros Hchrono.
  destruct (buffers_bounded_run evs initial buffers_bounded_initial)
    as (Hh & Hs & He).
  repeat split; try assumption.
  - eexists. cbn -[slice_last]. unfold sessionUpdater. cbn -[slice_last].
    apply slice_last_suffix.
  - apply chronological_from in Hchrono as [t0 Hclock].
    pose proof (detector_inv_run 0 ordered initial t0 (detector_inv_initial t0)
                  Hclock)
      as (_ & _ & _ & _ & Hsorted).
    exact Hsorted.
Qed.

End Detector.

(** ** The estimator *)


(** C5 (silence), as the code has it.  For every all-zero sample buffer and
    every calibration offset in [-30, 30], the reading is the larger of 0 and
    the offset: it is never negative, and it is 0 exactly when the offset is
    not positive. *)
Theorem C5_silence (samples : list R) (calibrationOffsetDb : Z) :
  Forall (fun x => x = 0%R) samples ->
  -30 <= calibrationOffsetDb <= 30 ->
  Estimator.currentDb samples calibrationOffsetDb = Z.max 0 calibrationOffsetDb
  /\ 0 <= Estimator.currentDb samples calibrationOffsetDb
  /\ (Estimator.currentDb samples calibrationOffsetDb = 0
      <-> calibrationOffsetDb <= 0).
Proof.
  intros Hsilent _.
  rewrite (EstimatorFacts.currentDb_silence samples calibrationOffsetDb Hsilent).
  lia.
Qed.

Lemma silence_is_silent : Forall (fun x => x = 0%R) silence.
Proof. apply Forall_forall. intros x Hin. now apply repeat_spec in Hin. Defined.

Lemma C5_silence_witness :
  Forall (fun x => x = 0%R) silence
  /\ -30 <= -5 <= 30
  /\ Estimator.currentDb silence (-5) = Z.max 0 (-5).
Proof.
  split; [exact silence_is_silent|].
  split; [lia|].
  assert (Hrange : -30 <= -5 <= 30) by lia.
  exact (proj1 (C5_silence silence (-5) silence_is_silent Hrange)).
Defined.

(** Silence with a calibration offset of +10 reads 10, not 0. *)
Lemma C5_silence_counterexample :
  Forall (fun x => x = 0%R) silence
  /\ -30 <= 10 <= 30
  /\ Estimator.currentDb silence 10 = 10
  /\ Estimator.currentDb silence 10 <> 0.
Proof.
  split; [exact silence_is_silent|].
  split; [lia|].
  rewrite (EstimatorFacts.currentDb_silence silence 10 silence_is_silent).
  split; [reflexivity | discriminate].
Qed.

(** ** dB bands at concrete values *)

(** The value 90 falls in 'Sound System', in both copies of the component,
    and 100 is not labelled 'Potential Hearing Damage!' by the current one. *)
Lemma C9_bands_counterexample :
  getDbLabel 90 = "Sound System"%string
  /\ Earlier.getDbLabel 90 = "Sound System"%string
  /\ getDbLabel 90 <> "Vacuum / Traffic"%string
  /\ getDbLabel 100 <> "Potential Hearing Damage!"%string.
Proof. repeat split; discriminate. Qed.

Lemma C9_bands_witness :
  12 < 30 /\ 80 <= 85 < 90 /\ 90 <= 95 < 100 /\ 100 <= 104
  /\ getDbLabel 12 = "Whisper Quiet"%string
  /\ getDbLabel 85 = "Vacuum / Traffic"%string
  /\ getDbLabel 104 = "Potential Damage!"%string.
Proof.
  assert (H1 : 12 < 30) by lia.
  assert (H2 : 80 <= 85 < 90) by lia.
  assert (H3 : 90 <= 95 < 100) by lia.
  assert (H4 : 100 <= 104) by lia.
  pose proof (C9_bands decimal 12 85 95 104
                {| delay := 1000; currentDurationLimit := 2 |}
                (firing T0) initial H1 H2 H3 H4)
    as (Ha & Hb & _ & _ & Hc & _).
  repeat split; assumption || lia.
Defined.

(** ** Concrete runs of the detector *)

(** C7 (residual peak).  With the threshold at 50, a reading of 60 followed
    half a second later by a reading of 40 leaves the detector idle (no
    episode, no flag, no timer) with [eventPeakDb] still at 60; an episode
    of 55 dB that qualifies twenty seconds later is then reported and logged
    with a peak of 60. *)
Theorem C7_residual_peak :
  idle (run decimal initial
          [SettingsChange quietRoom;
           AnimationFrame 60 (tick T0);
           AnimationFrame 40 (tick (T0 + 500))]) = true
  /\ eventPeakRef
       (refs (run decimal initial
                [SettingsChange quietRoom;
                 AnimationFrame 60 (tick T0);
                 AnimationFrame 40 (tick (T0 + 500))])) = 60
  /\ notifications
       (host (run decimal initial
                ([SettingsChange quietRoom;
                  AnimationFrame 60 (tick T0);
                  AnimationFrame 40 (tick (T0 + 500))]
                 ++ steady 55 (T0 + 20000) 250 9
                 ++ [AnimationFrame 40 (tick (T0 + 22250));
                     TimeoutFires (firing (T0 + 23000))])))
     = [ {| title := "Sustained Noise Detected!";
            body := "Level reached 60 dB for 2+ sec." |} ]
  /\ map db
       (events
          (view (run decimal initial
                   ([SettingsChange quietRoom;
                     AnimationFrame 60 (tick T0);
                     AnimationFrame 40 (tick (T0 + 500))]
                    ++ steady 55 (T0 + 20000) 250 9
                    ++ [AnimationFrame 40 (tick (T0 + 22250));
                        TimeoutFires (firing (T0 + 23000))]))))
     = [60].
Proof. vm_compute. repeat split; reflexivity. Qed.

Lemma C1_sustain_contiguity_witness :
  40 <= thresholdRef
          (refs (run decimal initial
                   ([SettingsChange quietRoom] ++ steady 60 T0 250 7)))
  /\ qualifies
       (refs (run decimal
                (update_with 40 (tick (T0 + 1750))
                   (run decimal initial
                      ([SettingsChange quietRoom] ++ steady 60 T0 250 7)))
                (steady 60 (T0 + 2000) 250 8)))
       60 (tick (T0 + 4000)) = true
  /\ loudStartTimeRef
       (refs (update_with 40 (tick (T0 + 1750))
                (run decimal initial
                   ([SettingsChange quietRoom] ++ steady 60 T0 250 7)))) = None.
Proof.
  assert (H1 : 40 <= thresholdRef
          (refs (run decimal initial
                   ([SettingsChange quietRoom] ++ steady 60 T0 250 7))))
    by (vm_compute; discriminate).
  assert (H3 : qualifies
       (refs (run decimal
                (update_with 40 (tick (T0 + 1750))
                   (run decimal initial
                      ([SettingsChange quietRoom] ++ steady 60 T0 250 7)))
                (steady 60 (T0 + 2000) 250 8)))
       60 (tick (T0 + 4000)) = true) by (vm_compute; reflexivity).
  split; [exact H1|]. split; [exact H3|].
  exact (proj1 (C1_sustain_contiguity decimal _ 40 (tick (T0 + 1750)) _
                  (steady 60 (T0 + 2000) 250 8) 60 (tick (T0 + 4000))
                  H1 (or_intror eq_refl) H3)).
Defined.

(** One and a half seconds above threshold, one low tick, then half a second
    above threshold: two seconds of loudness in all, and no qualification. *)
Example interrupted_episode_does_not_qualify :
  qualifies
    (refs (run decimal
             (update_with 40 (tick (T0 + 1750))
                (run decimal initial
                   ([SettingsChange quietRoom] ++ steady 60 T0 250 7)))
             (steady 60 (T0 + 2000) 250 2)))
    60 (tick (T0 + 2500)) = false.
Proof. vm_compute. reflexivity. Qed.

Lemma C2_cooldown_witness :
  chronological
    (([SettingsChange quietRoom] ++ steady 60 T0 250 9)
     ++ TimeoutFires (firingWith (T0 + 3000) 4)
     :: steady 60 (T0 + 3250) 250 29
     ++ TimeoutFires (firingWith (T0 + 11250) 4) :: []) = true
  /\ armed (run decimal initial
              ([SettingsChange quietRoom] ++ steady 60 T0 250 9)) = true
  /\ armed (run decimal initial
              (([SettingsChange quietRoom] ++ steady 60 T0 250 9)
               ++ TimeoutFires (firingWith (T0 + 3000) 4)
               :: steady 60 (T0 + 3250) 250 29)) = true
  /\ 7000 < nowAtNotify (firingWith (T0 + 11250) 4)
            - nowAtNotify (firingWith (T0 + 3000) 4).
Proof.
  assert (H1 : chronological
    (([SettingsChange quietRoom] ++ steady 60 T0 250 9)
     ++ TimeoutFires (firingWith (T0 + 3000) 4)
     :: steady 60 (T0 + 3250) 250 29
     ++ TimeoutFires (firingWith (T0 + 11250) 4) :: []) = true)
    by (vm_compute; reflexivity).
  assert (H2 : armed (run decimal initial
              ([SettingsChange quietRoom] ++ steady 60 T0 250 9)) = true)
    by (vm_compute; reflexivity).
  assert (H3 : armed (run decimal initial
              (([SettingsChange quietRoom] ++ steady 60 T0 250 9)
               ++ TimeoutFires (firingWith (T0 + 3000) 4)
               :: steady 60 (T0 + 3250) 250 29)) = true)
    by (vm_compute; reflexivity).
  split; [exact H1|]. split; [exact H2|]. split; [exact H3|].
  exact (proj1 (proj2 (proj2 (proj2
           (C2_cooldown decimal _ _ [] _ _ (refs initial) 60 (tick T0)
              H1 H2 H3))))).
Defined.

(** The timestamp of a log entry is read when the updater runs.  Here the
    first updater runs seven seconds after its notification and the second
    at once: the notifications are 8000 ms apart, the two timestamps
    1000 ms. *)
Example late_updater_timestamps :
  let evs :=
    [SettingsChange quietRoom] ++ steady 60 T0 250 9
    ++ [TimeoutFires (firingWith (T0 + 3000) 7000);
        AnimationFrame 60 (tick (T0 + 10001));
        TimeoutFires (firingWith (T0 + 11000) 0)] in
  chronological evs = true
  /\ List.length (notifications (host (run decimal initial evs))) = 2%nat
  /\ map timestamp (events (view (run decimal initial evs)))
     = [T0 + 11000; T0 + 10000]
  /\ lastNotifyTime (refs (run decimal initial evs)) = T0 + 11000.
Proof. vm_compute. repeat split; reflexivity. Qed.

Lemma C3_emission_witness :
  qualifies
    (refs (run decimal initial
             ([SettingsChange quietRoom] ++ steady 60 T0 250 8)))
    60 (tick (T0 + 2000)) = true
  /\ notifications
       (host (fire decimal (firing (T0 + 3000))
                (update_with 75 (tick (T0 + 2500))
                   (update_with 60 (tick (T0 + 2000))
                      (run decimal initial
                         ([SettingsChange quietRoom] ++ steady 60 T0 250 8))))))
     = [ {| title := "Sustained Noise Detected!";
            body := "Level reached 75 dB for 2+ sec." |} ].
Proof.
  assert (H : qualifies
    (refs (run decimal initial
             ([SettingsChange quietRoom] ++ steady 60 T0 250 8)))
    60 (tick (T0 + 2000)) = true) by (vm_compute; reflexivity).
  split; [exact H|].
  pose proof (C3_emission decimal _ 60 (tick (T0 + 2000)) 75
                (tick (T0 + 2500)) (firing (T0 + 3000)) H)
    as (_ & _ & _ & Hnote & _).
  exact Hnote.
Defined.

Lemma C10_pending_emission_witness :
  qualifies
    (refs (run decimal initial
             ([SettingsChange quietRoom] ++ steady 60 T0 250 8)))
    60 (tick (T0 + 2000)) = true
  /\ forallb (fun e => negb (isTimeout e))
       (steady 40 (T0 + 2250) 250 3) = true
  /\ timers
       (host (run decimal
                (run decimal initial
                   ([SettingsChange quietRoom] ++ steady 60 T0 250 8))
                (AnimationFrame 60 (tick (T0 + 2000))
                 :: steady 40 (T0 + 2250) 250 3)))
     = [ {| delay := 1000; currentDurationLimit := 2 |} ].
Proof.
  assert (H1 : qualifies
    (refs (run decimal initial
             ([SettingsChange quietRoom] ++ steady 60 T0 250 8)))
    60 (tick (T0 + 2000)) = true) by (vm_compute; reflexivity).
  assert (H2 : forallb (fun e => negb (isTimeout e))
       (steady 40 (T0 + 2250) 250 3) = true) by (vm_compute; reflexivity).
  split; [exact H1|]. split; [exact H2|].
  exact (proj1 (C10_pending_emission decimal _ 60 (tick (T0 + 2000)) _
                  (firing (T0 + 3000)) [] H1 H2)).
Defined.

Lemma C8_bounded_buffers_witness :
  chronological
    ([SettingsChange quietRoom] ++ steady 60 T0 250 9
     ++ [TimeoutFires (firingWith (T0 + 3000) 4); IntervalFires; DeviceCleanup])
  = true
  /\ (List.length
        (events
           (view (run decimal initial
                    ([SettingsChange quietRoom] ++ steady 60 T0 250 9
                     ++ [TimeoutFires (firingWith (T0 + 3000) 4); IntervalFires;
                         DeviceCleanup])))) <= 50)%nat.
Proof.
  assert (H : chronological
    ([SettingsChange quietRoom] ++ steady 60 T0 250 9
     ++ [TimeoutFires (firingWith (T0 + 3000) 4); IntervalFires; DeviceCleanup])
  = true) by (vm_compute; reflexivity).
  split; [exact H|].
  exact (proj1 (proj2 (proj2
           (C8_bounded_buffers decimal
              ([SettingsChange quietRoom] ++ steady 60 T0 250 9
               ++ [TimeoutFires (firingWith (T0 + 3000) 4); IntervalFires;
                   DeviceCleanup])
              _ H)))).
Defined.

(** ** The end-to-end scenarios of the specification, run on the model

    Default settings (threshold 80, duration 2 s), one tick every 250 ms. *)

(** Loud for two and a half seconds: one notification, one logged event. *)
Example scenario_sustained :
  let st := run decimal initial
              (steady 90 T0 250 11
               ++ steady 40 (T0 + 2750) 250 1
               ++ [TimeoutFires (firing (T0 + 3000))]) in
  notifications (host st)
  = [ {| title := "Sustained Noise Detected!";
         body := "Level reached 90 dB for 2+ sec." |} ]
  /\ map db (events (view st)) = [90]
  /\ map label (events (view st)) = ["Sound System"%string].
Proof. vm_compute. repeat split; reflexivity. Qed.

(** Loud for one and a half seconds only: nothing is armed, sent or logged. *)
Example scenario_short :
  let st := run decimal initial
              (steady 90 T0 250 7 ++ steady 40 (T0 + 1750) 250 20) in
  timers (host st) = []
  /\ notifications (host st) = []
  /\ events (view st) = [].
Proof. vm_compute. repeat split; reflexivity. Qed.

(** Two loud episodes of three seconds, four seconds of silence between
    them: the second falls within the cooldown of the first notification. *)
Example scenario_cooldown :
  let st := run decimal initial
              (steady 90 T0 250 12
               ++ [TimeoutFires (firing (T0 + 3000))]
               ++ steady 90 (T0 + 3000) 250 1
               ++ steady 40 (T0 + 3250) 250 15
               ++ steady 90 (T0 + 7000) 250 13
               ++ steady 40 (T0 + 10250) 250 8) in
  List.length (notifications (host st)) = 1%nat
  /\ timers (host st) = []
  /\ map timestamp (events (view st)) = [T0 + 3000].
Proof. vm_compute. repeat split; reflexivity. Qed.

(* ================================================================== *)
(** * Further properties *)

(** ** Laws of the estimator *)

Module EstimatorLaws.
Import Estimator.
Local Open Scope R_scope.

Lemma Math_round_le (x y : R) : x <= y -> (Math_round x <= Math_round y)%Z.
Proof.
  intros H. unfold Math_round.
  destruct (base_Int_part (x + / 2)) as [Hx _].
  destruct (base_Int_part (y + / 2)) as [_ Hy].
  apply Z.lt_succ_r, lt_IZR. rewrite succ_IZR. lra.
Qed.

Lemma sum_of_squares_nonneg (l : list R) : 0 <= sum_of_squares l.
Proof.
  rewrite EstimatorFacts.sum_of_squares_spec.
  induction l as [|x l IH]; simpl; [lra|].
  pose proof (Rle_0_sqr x) as Hx. unfold Rsqr in Hx. lra.
Qed.

Lemma sum_of_squares_normalized (l : list R) :
  Forall (fun x => -1 <= x <= 1) l ->
  sum_of_squares l <= bufferLength l.
Proof.
  intros H. rewrite EstimatorFacts.sum_of_squares_spec. unfold bufferLength.
  induction H as [|x l Hx _ IH].
  - simpl. lra.
  - change (List.length (x :: l)) with (S (List.length l)).
    rewrite S_INR. simpl. nra.
Qed.

Lemma rms_nonneg (l : list R) : 0 <= rms l.
Proof. unfold rms. apply sqrt_pos. Qed.

Lemma rms_normalized (l : list R) :
  Forall (fun x => -1 <= x <= 1) l -> rms l <= 1.
Proof.
  intros H. unfold rms.
  destruct l as [|x l].
  - unfold sum_of_squares, Rdiv. simpl. rewrite Rmult_0_l, sqrt_0. lra.
  - rewrite <- sqrt_1. apply sqrt_le_1_alt.
    assert (Hn : 0 < bufferLength (x :: l)).
    { unfold bufferLength. apply lt_0_INR. simpl. lia. }
    apply (Rmult_le_reg_r (bufferLength (x :: l))); [exact Hn|].
    unfold Rdiv. rewrite Rmult_assoc, Rinv_l by lra.
    pose proof (sum_of_squares_normalized _ H). lra.
Qed.

Lemma ln_10_pos : 0 < ln 10.
Proof. rewrite <- ln_1. apply ln_increasing; lra. Qed.

Lemma baseDb_normalized (l : list R) :
  Forall (fun x => -1 <= x <= 1) l -> baseDb l <= 80.
Proof.
  intros H. unfold baseDb.
  destruct (Rlt_dec (1 / 1000000) (rms l)) as [Hlt|_]; [|lra].
  assert (Hln : ln (rms l) <= 0).
  { rewrite <- ln_1. pose proof (rms_normalized l H) as Hle.
    destruct Hle as [Hle|Heq].
    - left. apply ln_increasing; lra.
    - rewrite Heq. lra. }
  unfold log10.
  assert (Hq : ln (rms l) / ln 10 <= 0).
  { unfold Rdiv. pose proof ln_10_pos as Hp.
    pose proof (Rinv_0_lt_compat _ Hp) as Hi. nra. }
  lra.
Qed.

(** Samples that stay within [-1, 1] never read above [80 + offset]: the
    reading is at most the larger of 0 and [80 + calibrationOffsetDb]. *)
Theorem estimator_normalized_bound (samples : list R) (calibration : Z) :
  Forall (fun x => -1 <= x <= 1) samples ->
  (currentDb samples calibration <= Z.max 0 (80 + calibration))%Z.
Proof.
  intros H. unfold currentDb.
  rewrite <- (EstimatorFacts.Math_round_IZR (Z.max 0 (80 + calibration))).
  apply Math_round_le.
  rewrite <- EstimatorFacts.Rmax_IZR, plus_IZR.
  apply Rle_max_compat_l.
  pose proof (baseDb_normalized samples H). lra.
Qed.

End EstimatorLaws.

(** ** Further properties of the pipeline *)

Section Pipeline.

Variable toString : Q -> string.

(** *** What each callback leaves alone *)

Lemma fire_refs_view (f : Firing) (st : App) :
  smoothedDbRef (refs (fire toString f st)) = smoothedDbRef (refs st)
  /\ displayDb (view (fire toString f st)) = displayDb (view st)
  /\ sessionPeakRef (refs (fire toString f st)) = sessionPeakRef (refs st)
  /\ sessionHistory (view (fire toString f st)) = sessionHistory (view st)
  /\ history (view (fire toString f st)) = history (view st)
  /\ isAlerting (view (fire toString f st)) = isAlerting (view st)
  /\ smoothingAlphaRef (refs (fire toString f st)) = smoothingAlphaRef (refs st).
Proof.
  unfold fire. destruct (timers (host st)); repeat split; reflexivity.
Qed.

Lemma tick_readings_app (a b : list Event) :
  tick_readings (a ++ b) = tick_readings a ++ tick_readings b.
Proof. apply flat_map_app. Qed.

Lemma pushed_readings_cons (e : Event) (evs : list Event) :
  pushed_readings (e :: evs) = pushed_readings [e] ++ pushed_readings evs.
Proof. unfold pushed_readings. simpl. now rewrite app_nil_r. Qed.


(** *** Peaks and buffers *)

Lemma step_sessionPeak (st : App) (e : Event) :
  isInterval e = false ->
  sessionPeakRef (refs (step toString st e))
  = fold_left Z.max (tick_readings [e]) (sessionPeakRef (refs st))
  /\ sessionHistory (view (step toString st e)) = sessionHistory (view st).
Proof.
  intros He. destruct e as [d clk|f| |s|]; try discriminate;
    try (split; reflexivity).
  simpl. destruct (fire_refs_view f st) as (_ & _ & -> & -> & _).
  split; reflexivity.
Qed.

Lemma run_sessionPeak (evs : list Event) (st : App) :
  forallb (fun e => negb (isInterval e)) evs = true ->
  sessionPeakRef (refs (run toString st evs))
  = fold_left Z.max (tick_readings evs) (sessionPeakRef (refs st))
  /\ sessionHistory (view (run toString st evs)) = sessionHistory (view st).
Proof.
  revert st. induction evs as [|e evs IH]; intros st Hall.
  - split; reflexivity.
  - simpl in Hall. apply andb_prop in Hall as [He Hall].
    apply negb_true_iff in He.
    destruct (step_sessionPeak st e He) as [Hp Hh].
    destruct (IH (step toString st e) Hall) as [Hp' Hh'].
    rewrite run_cons, Hp', Hh', Hp, Hh.
    change (e :: evs) with ([e] ++ evs).
    rewrite tick_readings_app, fold_left_app. split; reflexivity.
Qed.

Lemma Forall_slice_last {A : Type} (P : A -> Prop) (n : nat) (a : list A) :
  Forall P a -> Forall P (slice_last n a).
Proof.
  intros H. rewrite (slice_last_suffix n a) in H.
  now apply Forall_app in H.
Qed.

Lemma session_zero_step (st : App) (e : Event) :
  Forall (fun x => x = 0) (sessionHistory (view st)) ->
  Forall (fun x => x = 0) (sessionHistory (view (step toString st e))).
Proof.
  intros H. destruct e as [d clk|f| |s|]; try exact H.
  - simpl. now destruct (fire_refs_view f st) as (_ & _ & _ & -> & _).
  - cbn -[slice_last]. unfold sessionUpdater. cbn -[slice_last].
    apply Forall_slice_last, Forall_app. split; [exact H|].
    constructor; [reflexivity | constructor].
Qed.

(** Between two runs of the aggregator [sessionPeak] is the largest of its
    old value and the readings of all ticks since.  But the updater that
    appends to the session buffer reads [sessionPeak] when React runs it,
    after the callback has reset it: the entry appended is 0 whatever the
    readings of the period were, and in every reachable state the session
    buffer holds nothing but zeros. *)
Theorem session_aggregator_appends_zero (evs reached : list Event) (st : App) :
  forallb (fun e => negb (isInterval e)) evs = true ->
  sessionPeakRef (refs (run toString st evs))
  = fold_left Z.max (tick_readings evs) (sessionPeakRef (refs st))
  /\ sessionHistory (view (run toString st (evs ++ [IntervalFires])))
     = slice_last 480 (sessionHistory (view st) ++ [0])
  /\ sessionPeakRef (refs (run toString st (evs ++ [IntervalFires]))) = 0
  /\ Forall (fun x => x = 0)
       (sessionHistory (view (run toString initial reached))).
Proof.
  intros Hall.
  destruct (run_sessionPeak evs st Hall) as [Hp Hh].
  split; [exact Hp|].
  rewrite run_snoc. cbn -[slice_last]. unfold sessionUpdater.
  cbn -[slice_last]. rewrite Hh.
  split; [reflexivity|]. split; [reflexivity|].
  induction reached as [|e reached IH] using rev_ind.
  - constructor.
  - rewrite run_snoc. now apply session_zero_step.
Qed.

Lemma slice_last_snoc_length {A : Type} (n : nat) (a : list A) (x : A) :
  List.length (slice_last n (a ++ [x]))
  = Nat.min n (List.length a + 1).
Proof.
  unfold slice_last. rewrite length_skipn, length_app. simpl. lia.
Qed.

Lemma session_length_from (evs : list Event) (st : App) :
  (List.length (sessionHistory (view st)) <= 480)%nat ->
  List.length (sessionHistory (view (run toString st evs)))
  = Nat.min 480
      (List.length (sessionHistory (view st))
       + List.length (filter isInterval evs)).
Proof.
  revert st. induction evs as [|e evs IH]; intros st Hst.
  - change (run toString st []) with st.
    change (List.length (filter isInterval [])) with 0%nat. lia.
  - rewrite run_cons.
    destruct e as [d clk|f| |s|];
      try (rewrite IH; [reflexivity | exact Hst]).
    + assert (Hf : sessionHistory (view (step toString st (TimeoutFires f)))
                   = sessionHistory (view st))
        by (simpl; now destruct (fire_refs_view f st) as (_ & _ & _ & -> & _)).
      rewrite IH; rewrite Hf; [reflexivity | exact Hst].
    + assert (Hi : List.length
                     (sessionHistory (view (step toString st IntervalFires)))
                   = Nat.min 480 (List.length (sessionHistory (view st)) + 1))
        by apply slice_last_snoc_length.
      rewrite IH; rewrite Hi; [|lia].
      change (List.length (filter isInterval (IntervalFires :: evs)))
        with (S (List.length (filter isInterval evs))).
      lia.
Qed.

(** The session buffer holds one entry for each run of the aggregator so
    far, up to 480. *)
Theorem session_history_length (evs : list Event) :
  List.length (sessionHistory (view (run toString initial evs)))
  = Nat.min 480 (List.length (filter isInterval evs)).
Proof.
  rewrite session_length_from; [reflexivity|].
  change (sessionHistory (view initial)) with (@nil Z). simpl. lia.
Qed.

Lemma slice_last_absorb {A : Type} (n : nat) (a b : list A) :
  slice_last n (slice_last n a ++ b) = slice_last n (a ++ b).
Proof.
  unfold slice_last.
  rewrite !length_app, length_skipn.
  destruct (Nat.le_gt_cases (List.length a) n) as [Hle|Hgt].
  - replace (List.length a - n)%nat with 0%nat by lia.
    simpl. now rewrite Nat.sub_0_r.
  - replace (List.length a - (List.length a - n) + List.length b - n)%nat
      with (List.length b) by lia.
    replace (List.length a + List.length b - n)%nat
      with ((List.length a - n) + List.length b)%nat by lia.
    rewrite (Nat.add_comm (List.length a - n)), <- skipn_skipn.
    f_equal. rewrite skipn_app.
    replace (List.length a - n - List.length a)%nat with 0%nat by lia.
    reflexivity.
Qed.

Lemma shift_is_slice_last (h : list Z) (d : Z) :
  h <> [] ->
  skipn 1 h ++ [d] = slice_last (List.length h) (h ++ [d]).
Proof.
  intros Hne. unfold slice_last. rewrite length_app. simpl.
  replace (List.length h + 1 - List.length h)%nat with 1%nat by lia.
  destruct h as [|x h]; [contradiction | reflexivity].
Qed.

Lemma slice_last_all {A : Type} (a : list A) :
  slice_last (List.length a) a = a.
Proof. unfold slice_last. now rewrite Nat.sub_diag. Qed.

Lemma history_fifo_from (evs : list Event) (st : App) :
  history (view st) <> [] ->
  forallb (fun e => negb (isCleanup e)) evs = true ->
  history (view (run toString st evs))
  = slice_last (List.length (history (view st)))
      (history (view st) ++ pushed_readings evs).
Proof.
  revert st. induction evs as [|e evs IH]; intros st Hne Hall.
  - simpl. now rewrite app_nil_r, slice_last_all.
  - simpl in Hall. apply andb_prop in Hall as [He Hall].
    rewrite run_cons, pushed_readings_cons.
    assert (Hstep :
      history (view (step toString st e))
      = slice_last (List.length (history (view st)))
          (history (view st) ++ pushed_readings [e])).
    { destruct e as [d clk|f| |s|]; try discriminate;
        try (simpl; now rewrite app_nil_r, slice_last_all).
      - unfold pushed_readings. cbn -[slice_last skipn].
        destruct (Z.rem (now clk) 3 =? 0).
        + simpl app at 2. now apply shift_is_slice_last.
        + now rewrite app_nil_r, slice_last_all.
      - simpl. destruct (fire_refs_view f st) as (_ & _ & _ & _ & -> & _).
        now rewrite app_nil_r, slice_last_all. }
    assert (Hlen : List.length (history (view (step toString st e)))
                   = List.length (history (view st))).
    { rewrite Hstep. unfold slice_last. rewrite length_skipn, length_app.
      lia. }
    assert (Hne' : history (view (step toString st e)) <> []).
    { intros Hnil. rewrite Hnil in Hlen.
      destruct (history (view st)); [contradiction | discriminate]. }
    rewrite (IH _ Hne' Hall), Hlen, Hstep, slice_last_absorb.
    now rewrite app_assoc.
Qed.

Lemma history_length_step (st : App) (e : Event) :
  List.length (history (view st)) = 100%nat ->
  List.length (history (view (step toString st e))) = 100%nat.
Proof.
  intros H. destruct e as [d clk|f| |s|]; try exact H.
  - cbn -[skipn]. destruct (Z.rem (now clk) 3 =? 0); [|exact H].
    rewrite length_app, length_skipn, H. reflexivity.
  - simpl. destruct (fire_refs_view f st) as (_ & _ & _ & _ & -> & _).
    exact H.
  - cbn -[repeat]. apply repeat_length.
Qed.

Lemma history_length_reachable (evs : list Event) :
  List.length (history (view (run toString initial evs))) = 100%nat.
Proof.
  induction evs as [|e evs IH] using rev_ind.
  - cbn -[repeat]. apply repeat_length.
  - rewrite run_snoc. now apply history_length_step.
Qed.

(** The live history always holds exactly 100 entries, and between two
    device changes it is a queue: it consists of the last 100 of its former
    entries followed by the readings let in since (those of the ticks whose
    clock reading is a multiple of three), oldest first. *)
Theorem history_is_a_queue (pre evs : list Event) :
  forallb (fun e => negb (isCleanup e)) evs = true ->
  List.length (history (view (run toString initial (pre ++ evs)))) = 100%nat
  /\ history (view (run toString initial (pre ++ evs)))
     = slice_last 100
         (history (view (run toString initial pre)) ++ pushed_readings evs).
Proof.
  intros Hall. split; [apply history_length_reachable|].
  rewrite run_app.
  pose proof (history_length_reachable pre) as Hlen.
  rewrite history_fifo_from; [now rewrite Hlen | | exact Hall].
  intros Hnil. rewrite Hnil in Hlen. discriminate.
Qed.

(** *** The detector *)

Lemma fire_unarmed (f : Firing) (st : App) :
  armed st = false -> fire toString f st = st.
Proof.
  unfold armed, fire. destruct (timers (host st)); [reflexivity | discriminate].
Qed.

(** With no timer armed, a stretch of events in which no tick reads above
    the threshold arms nothing, sends nothing and logs nothing. *)
Theorem quiet_run_never_notifies (evs : list Event) (st : App) :
  armed st = false ->
  quiet_run toString st evs = true ->
  armed (run toString st evs) = false
  /\ notifications (host (run toString st evs)) = notifications (host st)
  /\ events (view (run toString st evs)) = events (view st).
Proof.
  revert st. induction evs as [|e evs IH]; intros st Harm Hquiet.
  - repeat split; assumption.
  - simpl in Hquiet. apply andb_prop in Hquiet as [He Hquiet].
    rewrite run_cons.
    assert (Hstep : armed (step toString st e) = false
                    /\ notifications (host (step toString st e))
                       = notifications (host st)
                    /\ events (view (step toString st e)) = events (view st)).
    { destruct e as [d clk|f| |s|]; try (repeat split; assumption).
      - apply negb_true_iff in He.
        change (step toString st (AnimationFrame d clk))
          with (update_with d clk st).
        unfold armed. rewrite update_timers.
        rewrite (not_above_not_qualifies _ _ clk He).
        repeat split. exact Harm.
      - simpl. rewrite (fire_unarmed f st Harm). repeat split. exact Harm. }
    destruct Hstep as (Ha & Hn & Hev).
    destruct (IH _ Ha Hquiet) as (Ha' & Hn' & Hev').
    repeat split; congruence.
Qed.

Lemma Forall2_firstn {A B : Type} (R : A -> B -> Prop) (n : nat)
    (a : list A) (b : list B) :
  Forall2 R a b -> Forall2 R (firstn n a) (firstn n b).
Proof.
  intros H. revert n. induction H as [|x y a b Hxy _ IH]; intros n.
  - rewrite !firstn_nil. constructor.
  - destruct n as [|n]; simpl; constructor; auto.
Qed.

Lemma log_matches_step (st : App) (e : Event) :
  Forall2 (logged_with toString) (events (view st))
    (firstn 50 (rev (notifications (host st)))) ->
  Forall2 (logged_with toString) (events (view (step toString st e)))
    (firstn 50 (rev (notifications (host (step toString st e))))).
Proof.
  intros H. destruct e as [d clk|f| |s|]; try exact H.
  simpl step. unfold fire.
  destruct (timers (host st)) as [|tm rest]; [exact H|].
  cbn -[firstn]. rewrite rev_app_distr.
  change (firstn 50 ?l) with (firstn (S 49) l).
  cbn [rev app firstn].
  constructor.
  - unfold logged_with. simpl. repeat split.
    now exists (currentDurationLimit tm).
  - apply (Forall2_firstn _ 49) in H.
    rewrite firstn_firstn in H. exact H.
Qed.

(** The log and the notifications go together: the entries of the log,
    newest first, pair off with the last notifications sent, up to 50; each
    notification has the fixed title and reports the peak of its entry, and
    each entry carries the label of its own peak.  In particular the log
    has as many entries as notifications were sent, up to 50. *)
Theorem log_matches_notifications (evs : list Event) :
  Forall2 (logged_with toString)
    (events (view (run toString initial evs)))
    (firstn 50 (rev (notifications (host (run toString initial evs)))))
  /\ List.length (events (view (run toString initial evs)))
     = Nat.min 50
         (List.length (notifications (host (run toString initial evs)))).
Proof.
  assert (H : Forall2 (logged_with toString)
    (events (view (run toString initial evs)))
    (firstn 50 (rev (notifications (host (run toString initial evs)))))).
  { induction evs as [|e evs IH] using rev_ind.
    - simpl. constructor.
    - rewrite run_snoc. now apply log_matches_step. }
  split; [exact H|].
  apply Forall2_length in H. rewrite H, length_firstn, length_rev.
  reflexivity.
Qed.

(** The alert indicator is on exactly while an episode is being timed. *)
Theorem alerting_iff_episode (evs : list Event) :
  isAlerting (view (run toString initial evs))
  = match loudStartTimeRef (refs (run toString initial evs)) with
    | Some _ => true
    | None => false
    end.
Proof.
  induction evs as [|e evs IH] using rev_ind.
  - reflexivity.
  - rewrite run_snoc.
    destruct e as [d clk|f| |s|]; try exact IH.
    + simpl. now destruct (above (refs (run toString initial evs)) d).
    + simpl. rewrite fire_loudStartTimeRef.
      destruct (fire_refs_view f (run toString initial evs))
        as (_ & _ & _ & _ & _ & -> & _).
      exact IH.
Qed.

Lemma loud_run_keeps_start (evs : list Event) (st : App) (s : Z) :
  loudStartTimeRef (refs st) = Some s ->
  s <> 0 ->
  loud_run toString st evs = true ->
  loudStartTimeRef (refs (run toString st evs)) = Some s.
Proof.
  revert st. induction evs as [|e evs IH]; intros st Hs Hnz Hloud.
  - exact Hs.
  - simpl in Hloud. apply andb_prop in Hloud as [He Hloud].
    rewrite run_cons. apply IH; [|exact Hnz|exact Hloud].
    rewrite step_loudStartTimeRef.
    destruct e as [d clk|f| |s'|]; try exact Hs.
    rewrite He. unfold episodeStart. rewrite Hs.
    destruct (Z.eqb_spec s 0); [contradiction | reflexivity].
Qed.

(** While every tick reads above threshold the start of the episode stays
    where the first loud tick put it, whatever else happens in between
    (timeouts, aggregator runs, settings and device changes): the timer is
    not restarted, and the next tick measures its duration from that start. *)
Theorem episode_start_pinned (evs : list Event) (st : App) (s : Z)
    (clk : Clock) :
  loudStartTimeRef (refs st) = Some s ->
  s <> 0 ->
  loud_run toString st evs = true ->
  loudStartTimeRef (refs (run toString st evs)) = Some s
  /\ sustainedDuration (refs (run toString st evs)) clk
     = (inject_Z (nowAtCheck clk - s) / inject_Z 1000)%Q.
Proof.
  intros Hs Hnz Hloud.
  pose proof (loud_run_keeps_start evs st s Hs Hnz Hloud) as Hpin.
  split; [exact Hpin|].
  unfold sustainedDuration, episodeStart. rewrite Hpin.
  destruct (Z.eqb_spec s 0); [contradiction | reflexivity].
Qed.

(** Sustained loudness is always answered.  In a reachable state with an
    episode under way since [s], after any stretch in which every tick read
    above threshold, a tick that reads above threshold, comes at least
    [durationThreshold] seconds after [s] and more than 7000 ms after the
    last notification leaves a timer armed: the one it arms itself, or the
    one of an emission already pending. *)
Theorem sustained_loudness_arms (pre evs : list Event) (s : Z)
    (currentDb : Z) (clk : Clock) :
  loudStartTimeRef (refs (run toString initial pre)) = Some s ->
  s <> 0 ->
  loud_run toString (run toString initial pre) evs = true ->
  above (refs (run toString initial (pre ++ evs))) currentDb = true ->
  (durationRef (refs (run toString initial (pre ++ evs)))
   <= inject_Z (nowAtCheck clk - s) / inject_Z 1000)%Q ->
  7000 < now clk - lastNotifyTime (refs (run toString initial (pre ++ evs))) ->
  armed (update_with currentDb clk (run toString initial (pre ++ evs))) = true.
Proof.
  intros Hs Hnz Hloud Habove Hdur Hcool.
  pose proof (loud_run_keeps_start evs _ s Hs Hnz Hloud) as Hpin.
  rewrite <- run_app in Hpin.
  pose proof (pending_consistent_reachable toString (pre ++ evs)) as Hpc.
  unfold pending_consistent in Hpc.
  unfold armed. rewrite update_timers.
  destruct (isEventOccurring (refs (run toString initial (pre ++ evs))))
    eqn:Hocc.
  - rewrite (qualifies_while_occurring _ _ _ Hocc).
    destruct Hpc as [tm ->]. reflexivity.
  - assert (Hq : qualifies (refs (run toString initial (pre ++ evs)))
                   currentDb clk = true).
    { unfold qualifies. rewrite Habove, Hocc. simpl.
      apply andb_true_intro. split.
      - apply Qle_bool_iff. unfold sustainedDuration, episodeStart.
        rewrite Hpin. destruct (Z.eqb_spec s 0); [contradiction | exact Hdur].
      - now apply Z.ltb_lt. }
    rewrite Hq, Hpc. reflexivity.
Qed.

(** *** The rate of notifications *)

Lemma notifications_step (st : App) (e : Event) :
  notifications (host (step toString st e))
  = match e with
    | TimeoutFires f =>
        match timers (host st) with
        | [] => notifications (host st)
        | tm :: _ =>
            notifications (host st)
            ++ [ {| title := "Sustained Noise Detected!";
                    body := notificationBody toString
                              (eventPeakRef (refs st))
                              (currentDurationLimit tm) |} ]
        end
    | _ => notifications (host st)
    end.
Proof.
  destruct e; try reflexivity.
  simpl. unfold fire. now destruct (timers (host st)).
Qed.

Lemma rate_step (t0 : Z) (st : App) (t : Z) (e : Event) :
  detector_inv 0 st t ->
  t0 <= t ->
  (notifications (host st) <> [] ->
   t0 + 7000 * (Z.of_nat (List.length (notifications (host st))) - 1)
   <= lastNotifyTime (refs st) <= t) ->
  ascending_from t (readings e) = true ->
  t0 <= last (readings e) t
  /\ (notifications (host (step toString st e)) <> [] ->
      t0 + 7000 * (Z.of_nat (List.length
                               (notifications (host (step toString st e)))) - 1)
      <= lastNotifyTime (refs (step toString st e)) <= last (readings e) t).
Proof.
  intros Hinv Ht0 Hrate Hclock.
  destruct Hinv as (_ & _ & Harm & _).
  rewrite notifications_step.
  destruct e as [d clk|f| |s|]; try (split; assumption).
  - simpl in Hclock.
    apply andb_prop in Hclock as [H1 Hclock].
    apply andb_prop in Hclock as [H2 Hclock].
    apply andb_prop in Hclock as [H3 _].
    apply Z.leb_le in H1, H2, H3.
    change (last (readings (AnimationFrame d clk)) t) with (nowAtCheck clk).
    split; [lia|]. intros Hne. specialize (Hrate Hne).
    change (lastNotifyTime (refs (step toString st (AnimationFrame d clk))))
      with (lastNotifyTime (refs st)).
    lia.
  - simpl in Hclock.
    apply andb_prop in Hclock as [H1 Hclock].
    apply andb_prop in Hclock as [H2 _].
    apply Z.leb_le in H1, H2.
    change (last (readings (TimeoutFires f)) t) with (newDate f).
    split; [lia|].
    simpl step. unfold fire. unfold armed in Harm.
    destruct (timers (host st)) as [|tm rest].
    + intros Hne. specialize (Hrate Hne). lia.
    + intros _. specialize (Harm eq_refl).
      cbn [refs lastNotifyTime timeoutCallback].
      rewrite length_app. simpl List.length.
      destruct (notifications (host st)) as [|n ns] eqn:Hn.
      * simpl. lia.
      * assert (Hne : n :: ns <> []) by discriminate.
        specialize (Hrate Hne). simpl List.length in *. lia.
Qed.

Lemma rate_run (t0 : Z) (evs : list Event) (st : App) (t : Z) :
  detector_inv 0 st t ->
  t0 <= t ->
  (notifications (host st) <> [] ->
   t0 + 7000 * (Z.of_nat (List.length (notifications (host st))) - 1)
   <= lastNotifyTime (refs st) <= t) ->
  ascending_from t (flat_map readings evs) = true ->
  notifications (host (run toString st evs)) <> [] ->
  t0 + 7000 * (Z.of_nat (List.length
                           (notifications (host (run toString st evs)))) - 1)
  <= clock_after t evs.
Proof.
  revert st t. induction evs as [|e evs IH]; intros st t Hinv Ht0 Hrate Hclock.
  - change (run toString st []) with st. change (clock_after t []) with t.
    intros Hne. specialize (Hrate Hne). lia.
  - change (e :: evs) with ([e] ++ evs) in *.
    apply ascending_events_app in Hclock as [He Hrest].
    rewrite clock_after_app, run_app.
    unfold clock_after in He, Hrest |- * at 2. simpl in He, Hrest |- *.
    rewrite app_nil_r in He, Hrest |- *.
    destruct (rate_step t0 st t e Hinv Ht0 Hrate He) as [Ht0' Hrate'].
    apply IH; try assumption.
    now apply detector_inv_step.
Qed.

(** At most one notification per seven seconds.  In a run from the initial
    state during which the clock does not go backwards, [n] notifications
    take more than [7000 * (n - 1)] ms: the clock at the end of the run is
    at least that far from its first reading. *)
Theorem notification_rate_limit (t0 : Z) (evs : list Event) :
  ascending_from t0 (flat_map readings evs) = true ->
  7000 * (Z.of_nat (List.length
                      (notifications (host (run toString initial evs)))) - 1)
  <= clock_after t0 evs - t0.
Proof.
  intros Hclock.
  destruct (notifications (host (run toString initial evs))) as [|n ns] eqn:Hn.
  - simpl.
    assert (Hmono : forall l t, ascending_from t l = true -> t <= last l t).
    { induction l as [|x l IHl]; intros t H; [simpl; lia|].
      simpl in H. apply andb_prop in H as [H1 H2]. apply Z.leb_le in H1.
      rewrite last_cons_default. specialize (IHl x H2). lia. }
    specialize (Hmono _ _ Hclock). unfold clock_after. lia.
  - pose proof (rate_run t0 evs initial t0 (detector_inv_initial t0)
                  (Z.le_refl t0)) as H.
    rewrite Hn in H.
    assert (Hinit : notifications (host initial) <> [] ->
      t0 + 7000 * (Z.of_nat (List.length (notifications (host initial))) - 1)
      <= lastNotifyTime (refs initial) <= t0)
      by (intros Hne; now contradiction Hne).
    specialize (H Hinit Hclock ltac:(discriminate)). lia.
Qed.

End Pipeline.

(** ** The bands, once more *)

(** Two values carry the same label exactly when they fall in the same
    decade, everything below 30 counting as one decade and everything from
    100 up as another: the nine labels are pairwise distinct and the
    breakpoints are the multiples of ten from 30 to 100. *)
Theorem label_by_decade (a b : Z) :
  getDbLabel a = getDbLabel b
  <-> Z.min 10 (Z.max 2 (a / 10)) = Z.min 10 (Z.max 2 (b / 10)).
Proof.
  unfold getDbLabel.
  repeat match goal with
         | |- context [a <? ?n] => destruct (Z.ltb_spec a n)
         end;
  repeat match goal with
         | |- context [b <? ?n] => destruct (Z.ltb_spec b n)
         end;
  try lia;
  (split; intros Heq;
   [ try discriminate Heq; Z.to_euclidean_division_equations; lia
   | try reflexivity; exfalso; Z.to_euclidean_division_equations; lia ]).
Qed.

(** ** Mounting *)

Lemma mountSettings_eq (saved : option Saved) (st : App) :
  mountSettings saved st
  = settingsEffect (settings (view (loadSettings saved st)))
      (loadSettings saved st).
Proof. unfold mountSettings. now destruct saved. Qed.

(** What the settings effect stores is what the next start restores: the
    settings in the React state and the refs derived from them, provided the
    threshold and the duration are not zero. *)
Theorem settings_round_trip (s : Settings) (dev : string) (st : App) :
  threshold s <> 0 ->
  ~ (durationThreshold s == 0)%Q ->
  settings (view (mountSettings (Some (persisted s dev)) st)) = s
  /\ thresholdRef (refs (mountSettings (Some (persisted s dev)) st))
     = threshold s
  /\ durationRef (refs (mountSettings (Some (persisted s dev)) st))
     = durationThreshold s
  /\ calibrationRef (refs (mountSettings (Some (persisted s dev)) st))
     = calibrationOffset s
  /\ smoothingAlphaRef (refs (mountSettings (Some (persisted s dev)) st))
     = spec_alpha (smoothingSpeed s)
  /\ displayIntervalRef (refs (mountSettings (Some (persisted s dev)) st))
     = spec_refreshInterval (smoothingSpeed s).
Proof.
  intros Ht Hd. rewrite mountSettings_eq.
  assert (Hs : settings (view (loadSettings (Some (persisted s dev)) st)) = s).
  { destruct s as [t d c sp]. simpl in *.
    destruct (Z.eqb_spec t 0) as [|_]; [contradiction|].
    destruct (Qeq_bool d 0) eqn:Hq; [apply Qeq_bool_iff in Hq; contradiction|].
    reflexivity. }
  rewrite Hs. simpl.
  repeat split; destruct (smoothingSpeed s); reflexivity.
Qed.

(** A stored threshold that is missing or zero is not restored, the
    threshold of the running component stays; a stored calibration offset is
    restored whatever its value, zero included. *)
Theorem stored_zero_threshold_ignored (o : Saved) (c : Z) (st : App) :
  savedThreshold o = None \/ savedThreshold o = Some 0 ->
  savedCalibrationOffset o = Some c ->
  thresholdRef (refs (mountSettings (Some o) st))
  = threshold (settings (view st))
  /\ threshold (settings (view (mountSettings (Some o) st)))
     = threshold (settings (view st))
  /\ calibrationRef (refs (mountSettings (Some o) st)) = c.
Proof.
  intros Ht Hc. rewrite mountSettings_eq. simpl.
  rewrite Hc. destruct Ht as [-> | ->]; repeat split; reflexivity.
Qed.

(** Whenever an audio input is found, mounting selects the first one, also
    when a device identifier had been stored: the callback reads the
    [selectedDevice] of the first render, which is empty. *)
Theorem first_microphone_selected (saved : option Saved)
    (items : list MediaDeviceInfo) (first : MediaDeviceInfo)
    (others : list MediaDeviceInfo) :
  filter isAudioInput items = first :: others ->
  selectedDevice (mountDevices saved items) = deviceId first
  /\ devices (mountDevices saved items) = first :: others.
Proof.
  intros H. unfold mountDevices, enumerated. simpl. rewrite H.
  split; reflexivity.
Qed.

(** ** The ring of the meter *)

Module MeterFacts.
Import Meter.
Local Open Scope R_scope.

Lemma circumference_pos : 0 < circumference.
Proof.
  unfold circumference, radius, size, stroke.
  pose proof PI_RGT_0. nra.
Qed.

Lemma percentage_range (value : R) : 0 <= percentage value <= 100.
Proof.
  unfold percentage. split.
  - apply Rmin_glb; [lra | apply Rmax_l].
  - apply Rmin_l.
Qed.

Lemma percentage_mono (v1 v2 : R) :
  v1 <= v2 -> percentage v1 <= percentage v2.
Proof.
  intros H. unfold percentage.
  apply Rle_min_compat_l, Rle_max_compat_l. lra.
Qed.

(** The dash offset of the ring runs from the whole circumference (empty
    ring, at 0 dB and below) down to 0 (full ring, at 120 dB and above): it
    never leaves that range and never grows with the value. *)
Theorem meter_ring (v1 v2 : R) :
  v1 <= v2 ->
  0 <= offset v2
  /\ offset v2 <= offset v1
  /\ offset v1 <= circumference
  /\ offset 0 = circumference
  /\ offset 120 = 0.
Proof.
  intros H. pose proof circumference_pos as Hc.
  pose proof (percentage_range v1) as [H1 H1'].
  pose proof (percentage_range v2) as [H2 H2'].
  pose proof (percentage_mono v1 v2 H) as Hm.
  unfold offset. repeat split; try nra.
  - unfold percentage.
    replace (0 / 120 * 100) with 0 by lra.
    rewrite Rmax_left by lra. rewrite Rmin_right by lra. lra.
  - unfold percentage.
    replace (120 / 120 * 100) with 100 by lra.
    rewrite Rmax_right by lra. rewrite Rmin_left by lra. lra.
Qed.

End MeterFacts.

(** ** The log export *)

Lemma occurrences_app (c : ascii) (a b : string) :
  occurrences c (a ++ b) = (occurrences c a + occurrences c b)%nat.
Proof.
  induction a as [|x a IH]; simpl; [reflexivity|]. rewrite IH. lia.
Qed.

Lemma occurrences_join (rows : list string) :
  Forall (fun r => occurrences (ascii_of_nat 10) r = 0%nat) rows ->
  occurrences (ascii_of_nat 10) (join newline rows)
  = (List.length rows - 1)%nat.
Proof.
  intros H. induction H as [|r rows Hr Hrows IH]; [reflexivity|].
  destruct rows as [|r' rows'].
  - simpl. exact Hr.
  - change (join newline (r :: r' :: rows'))
      with (r ++ newline ++ join newline (r' :: rows'))%string.
    rewrite !occurrences_app, Hr, IH. simpl. lia.
Qed.

(** An export writes nothing for an empty log; otherwise, when no row
    contains a line break, the text written has as many line breaks as the
    log has entries: the header line, then one line per entry. *)
Theorem export_one_line_per_entry (toString : Q -> string)
    (logs : list LogEntry) (filePath : option string) (path text : string) :
  Forall (fun l => occurrences (ascii_of_nat 10) (csvRow toString l) = 0%nat)
    logs ->
  exportLogs toString logs filePath = Some (path, text) ->
  logs <> []
  /\ filePath = Some path
  /\ occurrences (ascii_of_nat 10) text = List.length logs
  /\ exportLogs toString [] filePath = None.
Proof.
  intros Hrows Hexp. unfold exportLogs in Hexp.
  destruct logs as [|l logs]; [discriminate|].
  remember (l :: logs) as entries eqn:Hentries.
  remember (csvHeader ++ join newline (map (csvRow toString) entries))%string
    as content eqn:Hcontent.
  destruct filePath as [p|]; [|discriminate].
  unfold truthyString in Hexp.
  destruct (String.eqb p EmptyString); [discriminate|].
  assert (Hp : p = path) by congruence.
  assert (Ht : text = content) by congruence.
  subst p text content.
  split; [subst entries; discriminate|].
  split; [reflexivity|]. split; [|reflexivity].
  rewrite occurrences_app, occurrences_join.
  - rewrite length_map. subst entries.
    change (occurrences (ascii_of_nat 10) csvHeader) with 1%nat.
    simpl List.length. lia.
  - apply Forall_map. exact Hrows.
Qed.

Lemma getDbLabel_csvSafe (d : Z) :
  csvSafe (getDbLabel d) = true /\ csvSafe (Earlier.getDbLabel d) = true.
Proof.
  unfold getDbLabel, Earlier.getDbLabel.
  repeat match goal with
         | |- context [d <? ?n] => destruct (d <? n)
         end; split; reflexivity.
Qed.

Lemma labels_consistent_step (toString : Q -> string) (st : App) (e : Event) :
  Forall (fun ev => label ev = getDbLabel (db ev)) (events (view st)) ->
  Forall (fun ev => label ev = getDbLabel (db ev))
    (events (view (step toString st e))).
Proof.
  intros H. destruct e as [d clk|f| |s|]; try exact H.
  simpl step. unfold fire.
  destruct (timers (host st)) as [|tm rest]; [exact H|].
  cbn -[firstn]. apply Forall_forall. intros ev Hin.
  apply In_firstn in Hin. destruct Hin as [<- | Hin]; [reflexivity|].
  rewrite Forall_forall in H. now apply H.
Qed.

(** Every entry of the log carries the label of its own peak, and no label
    contains a double quote or a line break: put between quotes by the
    export, a label cannot end its field or its row. *)
Theorem logged_labels_csv_safe (toString : Q -> string) (evs : list Event) :
  Forall (fun ev => label ev = getDbLabel (db ev)
                    /\ csvSafe (label ev) = true)
    (events (view (run toString initial evs))).
Proof.
  assert (H : Forall (fun ev => label ev = getDbLabel (db ev))
                (events (view (run toString initial evs)))).
  { induction evs as [|e evs IH] using rev_ind.
    - constructor.
    - rewrite run_snoc. now apply labels_consistent_step. }
  eapply Forall_impl; [|exact H].
  intros ev Hev. split; [exact Hev|].
  rewrite Hev. apply getDbLabel_csvSafe.
Qed.

(** ** The window and the tray *)

Lemma shell_alive_step (sh : Shell) (e : ShellEvent) :
  alive sh = true -> isQuitting sh = false -> isExit e = false ->
  alive (shellStep sh e) = true /\ isQuitting (shellStep sh e) = false.
Proof.
  intros Ha Hq He. unfold shellStep, closeRequest. rewrite Ha.
  destruct e; try discriminate; simpl; rewrite ?Hq;
    try destruct (visible sh); simpl; auto.
Qed.

Lemma shell_dead_run (evs : list ShellEvent) (sh : Shell) :
  alive sh = false -> shellRun sh evs = sh.
Proof.
  revert sh. induction evs as [|e evs IH]; intros sh H; [reflexivity|].
  assert (Hstep : shellStep sh e = sh) by (unfold shellStep; now rewrite H).
  unfold shellRun in *. simpl. rewrite Hstep. now apply IH.
Qed.

(** Closing or minimising the window only hides it: as long as Exit has not
    been chosen from the tray menu the window exists, whatever is done to
    it, and a close request leaves it hidden; once Exit is chosen the
    window is gone for good. *)
Theorem window_survives_until_exit (evs rest : list ShellEvent) :
  forallb (fun e => negb (isExit e)) evs = true ->
  alive (shellRun shellStart evs) = true
  /\ visible (shellRun shellStart (evs ++ [CloseRequest])) = false
  /\ alive (shellRun shellStart (evs ++ [CloseRequest])) = true
  /\ alive (shellRun shellStart (evs ++ TrayExit :: rest)) = false.
Proof.
  intros Hall.
  assert (H : alive (shellRun shellStart evs) = true
              /\ isQuitting (shellRun shellStart evs) = false).
  { induction evs as [|e evs IH] using rev_ind.
    - split; reflexivity.
    - rewrite forallb_app in Hall. apply andb_prop in Hall as [Hall He].
      simpl in He. rewrite andb_true_r in He. apply negb_true_iff in He.
      destruct (IH Hall) as [Ha Hq].
      unfold shellRun. rewrite fold_left_app. simpl.
      now apply shell_alive_step. }
  destruct H as [Ha Hq].
  assert (Hclose : shellRun shellStart (evs ++ [CloseRequest])
                   = hideWindow (shellRun shellStart evs)).
  { unfold shellRun in *. rewrite fold_left_app.
    change (fold_left shellStep [CloseRequest] ?s)
      with (shellStep s CloseRequest).
    remember (fold_left shellStep evs shellStart) as sh eqn:Hsh.
    unfold shellStep, closeRequest. now rewrite Ha, Hq. }
  split; [exact Ha|]. rewrite Hclose.
  split; [reflexivity|]. split; [exact Ha|].
  assert (Hexit : alive (shellStep (shellRun shellStart evs) TrayExit) = false).
  { remember (shellRun shellStart evs) as sh eqn:Hsh.
    unfold shellStep, closeRequest. rewrite Ha. reflexivity. }
  assert (Hsplit : shellRun shellStart (evs ++ TrayExit :: rest)
                   = shellRun (shellStep (shellRun shellStart evs) TrayExit)
                       rest).
  { unfold shellRun. now rewrite fold_left_app. }
  now rewrite Hsplit, (shell_dead_run rest _ Hexit).
Qed.

(** ** Concrete instances *)

Lemma estimator_normalized_bound_witness :
  Forall (fun x => (-1 <= x <= 1)%R) silence
  /\ Estimator.currentDb silence 30 <= Z.max 0 (80 + 30).
Proof.
  assert (H : Forall (fun x => (-1 <= x <= 1)%R) silence).
  { apply Forall_forall. intros x Hin. apply repeat_spec in Hin.
    subst x. lra. }
  split; [exact H|].
  exact (EstimatorLaws.estimator_normalized_bound silence 30 H).
Defined.

Lemma session_aggregator_appends_zero_witness :
  forallb (fun e => negb (isInterval e))
    (steady 60 T0 250 2 ++ steady 72 (T0 + 500) 250 1
     ++ steady 40 (T0 + 750) 250 2) = true
  /\ sessionPeakRef
       (refs (run decimal initial
                (steady 60 T0 250 2 ++ steady 72 (T0 + 500) 250 1
                 ++ steady 40 (T0 + 750) 250 2)))
     = 72
  /\ sessionHistory
       (view (run decimal initial
                ((steady 60 T0 250 2 ++ steady 72 (T0 + 500) 250 1
                  ++ steady 40 (T0 + 750) 250 2) ++ [IntervalFires])))
     = [0].
Proof.
  assert (H : forallb (fun e => negb (isInterval e))
    (steady 60 T0 250 2 ++ steady 72 (T0 + 500) 250 1
     ++ steady 40 (T0 + 750) 250 2) = true) by (vm_compute; reflexivity).
  split; [exact H|].
  pose proof (session_aggregator_appends_zero decimal _ [] initial H)
    as (Hpeak & Hbuffer & _).
  split; [exact Hpeak | exact Hbuffer].
Defined.

Lemma history_is_a_queue_witness :
  forallb (fun e => negb (isCleanup e))
    [AnimationFrame 55 (tick 1700000000001);
     AnimationFrame 58 (tick 1700000000002);
     AnimationFrame 61 (tick 1700000000004)] = true
  /\ List.length
       (history
          (view (run decimal initial
                   ([DeviceCleanup]
                    ++ [AnimationFrame 55 (tick 1700000000001);
                        AnimationFrame 58 (tick 1700000000002);
                        AnimationFrame 61 (tick 1700000000004)]))))
     = 100%nat.
Proof.
  assert (H : forallb (fun e => negb (isCleanup e))
    [AnimationFrame 55 (tick 1700000000001);
     AnimationFrame 58 (tick 1700000000002);
     AnimationFrame 61 (tick 1700000000004)] = true) by reflexivity.
  split; [exact H|].
  exact (proj1 (history_is_a_queue decimal [DeviceCleanup] _ H)).
Defined.

Lemma quiet_run_never_notifies_witness :
  armed initial = false
  /\ quiet_run decimal initial
       (steady 70 T0 250 12 ++ [TimeoutFires (firing (T0 + 3000))]) = true
  /\ notifications
       (host (run decimal initial
                (steady 70 T0 250 12 ++ [TimeoutFires (firing (T0 + 3000))])))
     = notifications (host initial).
Proof.
  assert (H1 : armed initial = false) by reflexivity.
  assert (H2 : quiet_run decimal initial
       (steady 70 T0 250 12 ++ [TimeoutFires (firing (T0 + 3000))]) = true)
    by (vm_compute; reflexivity).
  split; [exact H1|]. split; [exact H2|].
  exact (proj1 (proj2 (quiet_run_never_notifies decimal _ initial H1 H2))).
Defined.

Lemma episode_start_pinned_witness :
  loudStartTimeRef
    (refs (run decimal initial [AnimationFrame 90 (tick T0)])) = Some T0
  /\ T0 <> 0
  /\ loud_run decimal (run decimal initial [AnimationFrame 90 (tick T0)])
       (steady 85 (T0 + 250) 250 4 ++ [IntervalFires]) = true
  /\ loudStartTimeRef
       (refs (run decimal
                (run decimal initial [AnimationFrame 90 (tick T0)])
                (steady 85 (T0 + 250) 250 4 ++ [IntervalFires]))) = Some T0.
Proof.
  assert (H1 : loudStartTimeRef
    (refs (run decimal initial [AnimationFrame 90 (tick T0)])) = Some T0)
    by reflexivity.
  assert (H2 : T0 <> 0) by discriminate.
  assert (H3 : loud_run decimal
                 (run decimal initial [AnimationFrame 90 (tick T0)])
                 (steady 85 (T0 + 250) 250 4 ++ [IntervalFires]) = true)
    by (vm_compute; reflexivity).
  split; [exact H1|]. split; [exact H2|]. split; [exact H3|].
  exact (proj1 (episode_start_pinned decimal _ _ T0 (tick (T0 + 2000))
                  H1 H2 H3)).
Defined.

Lemma sustained_loudness_arms_witness :
  loudStartTimeRef
    (refs (run decimal initial [AnimationFrame 90 (tick T0)])) = Some T0
  /\ T0 <> 0
  /\ loud_run decimal (run decimal initial [AnimationFrame 90 (tick T0)])
       (steady 85 (T0 + 250) 250 7) = true
  /\ above
       (refs (run decimal initial
                ([AnimationFrame 90 (tick T0)] ++ steady 85 (T0 + 250) 250 7)))
       85 = true
  /\ (durationRef
        (refs (run decimal initial
                 ([AnimationFrame 90 (tick T0)] ++ steady 85 (T0 + 250) 250 7)))
      <= inject_Z (nowAtCheck (tick (T0 + 2000)) - T0) / inject_Z 1000)%Q
  /\ 7000
     < now (tick (T0 + 2000))
       - lastNotifyTime
           (refs (run decimal initial
                    ([AnimationFrame 90 (tick T0)]
                     ++ steady 85 (T0 + 250) 250 7)))
  /\ armed
       (update_with 85 (tick (T0 + 2000))
          (run decimal initial
             ([AnimationFrame 90 (tick T0)] ++ steady 85 (T0 + 250) 250 7)))
     = true.
Proof.
  assert (H1 : loudStartTimeRef
    (refs (run decimal initial [AnimationFrame 90 (tick T0)])) = Some T0)
    by reflexivity.
  assert (H2 : T0 <> 0) by discriminate.
  assert (H3 : loud_run decimal
                 (run decimal initial [AnimationFrame 90 (tick T0)])
                 (steady 85 (T0 + 250) 250 7) = true)
    by (vm_compute; reflexivity).
  assert (H4 : above
       (refs (run decimal initial
                ([AnimationFrame 90 (tick T0)] ++ steady 85 (T0 + 250) 250 7)))
       85 = true) by (vm_compute; reflexivity).
  assert (H5 : (durationRef
        (refs (run decimal initial
                 ([AnimationFrame 90 (tick T0)] ++ steady 85 (T0 + 250) 250 7)))
      <= inject_Z (nowAtCheck (tick (T0 + 2000)) - T0) / inject_Z 1000)%Q)
    by (vm_compute; discriminate).
  assert (H6 : 7000
     < now (tick (T0 + 2000))
       - lastNotifyTime
           (refs (run decimal initial
                    ([AnimationFrame 90 (tick T0)]
                     ++ steady 85 (T0 + 250) 250 7))))
    by (vm_compute; reflexivity).
  repeat (split; [assumption|]).
  exact (sustained_loudness_arms decimal _ _ T0 85 (tick (T0 + 2000))
           H1 H2 H3 H4 H5 H6).
Defined.

Lemma notification_rate_limit_witness :
  ascending_from T0
    (flat_map readings
       (steady 90 T0 250 9 ++ [TimeoutFires (firingWith (T0 + 3000) 4)])) = true
  /\ 7000 * (Z.of_nat
               (List.length
                  (notifications
                     (host (run decimal initial
                              (steady 90 T0 250 9
                               ++ [TimeoutFires (firingWith (T0 + 3000) 4)]))))) - 1)
     <= clock_after T0
          (steady 90 T0 250 9 ++ [TimeoutFires (firingWith (T0 + 3000) 4)]) - T0.
Proof.
  assert (H : ascending_from T0
    (flat_map readings
       (steady 90 T0 250 9 ++ [TimeoutFires (firingWith (T0 + 3000) 4)])) = true)
    by (vm_compute; reflexivity).
  split; [exact H|].
  exact (notification_rate_limit decimal T0 _ H).
Defined.

Lemma settings_round_trip_witness :
  threshold quietRoom <> 0
  /\ ~ (durationThreshold quietRoom == 0)%Q
  /\ settings
       (view (mountSettings (Some (persisted quietRoom "default")) initial))
     = quietRoom.
Proof.
  assert (H1 : threshold quietRoom <> 0) by discriminate.
  assert (H2 : ~ (durationThreshold quietRoom == 0)%Q) by discriminate.
  split; [exact H1|]. split; [exact H2|].
  exact (proj1 (settings_round_trip quietRoom "default" initial H1 H2)).
Defined.

Lemma stored_zero_threshold_ignored_witness :
  (savedThreshold zeroedStorage = None
   \/ savedThreshold zeroedStorage = Some 0)
  /\ savedCalibrationOffset zeroedStorage = Some 0
  /\ thresholdRef (refs (mountSettings (Some zeroedStorage) initial)) = 80.
Proof.
  assert (H1 : savedThreshold zeroedStorage = None
               \/ savedThreshold zeroedStorage = Some 0)
    by (right; reflexivity).
  assert (H2 : savedCalibrationOffset zeroedStorage = Some 0) by reflexivity.
  split; [exact H1|]. split; [exact H2|].
  exact (proj1 (stored_zero_threshold_ignored zeroedStorage 0 initial H1 H2)).
Defined.

Lemma first_microphone_selected_witness :
  filter isAudioInput [webcam; builtInMic; usbMic] = builtInMic :: [usbMic]
  /\ selectedDevice
       (mountDevices
          (Some {| savedThreshold := Some 70;
                   savedDeviceId := Some "usb1"%string;
                   savedDurationThreshold := Some 2%Q;
                   savedCalibrationOffset := Some 0;
                   savedSmoothingSpeed := Some medium |})
          [webcam; builtInMic; usbMic])
     = deviceId builtInMic.
Proof.
  assert (H : filter isAudioInput [webcam; builtInMic; usbMic]
              = builtInMic :: [usbMic]) by reflexivity.
  split; [exact H|].
  exact (proj1 (first_microphone_selected _ _ _ _ H)).
Defined.

Lemma meter_ring_witness :
  (40 <= 80)%R /\ (Meter.offset 80 <= Meter.offset 40)%R.
Proof.
  assert (H : (40 <= 80)%R) by lra.
  split; [exact H|].
  exact (proj1 (proj2 (MeterFacts.meter_ring 40 80 H))).
Defined.

Lemma export_one_line_per_entry_witness :
  Forall (fun l => occurrences (ascii_of_nat 10) (csvRow decimal l) = 0%nat)
    [sampleEntry; sampleEntry]
  /\ exportLogs decimal [sampleEntry; sampleEntry] (Some "noise-logs.csv"%string)
     = Some ("noise-logs.csv"%string,
             (csvHeader ++ join newline
                             (map (csvRow decimal) [sampleEntry; sampleEntry]))%string)
  /\ occurrences (ascii_of_nat 10)
       (csvHeader ++ join newline
                       (map (csvRow decimal) [sampleEntry; sampleEntry]))%string
     = 2%nat.
Proof.
  assert (H1 : Forall
    (fun l => occurrences (ascii_of_nat 10) (csvRow decimal l) = 0%nat)
    [sampleEntry; sampleEntry]) by (repeat constructor).
  assert (H2 : exportLogs decimal [sampleEntry; sampleEntry]
                 (Some "noise-logs.csv"%string)
     = Some ("noise-logs.csv"%string,
             (csvHeader ++ join newline
                             (map (csvRow decimal) [sampleEntry; sampleEntry]))%string))
    by reflexivity.
  split; [exact H1|]. split; [exact H2|].
  exact (proj1 (proj2 (proj2
           (export_one_line_per_entry decimal _ _ _ _ H1 H2)))).
Defined.

Lemma window_survives_until_exit_witness :
  forallb (fun e => negb (isExit e))
    [Minimize; TrayClick; CloseRequest; NotificationClick] = true
  /\ alive (shellRun shellStart
              [Minimize; TrayClick; CloseRequest; NotificationClick]) = true.
Proof.
  assert (H : forallb (fun e => negb (isExit e))
    [Minimize; TrayClick; CloseRequest; NotificationClick] = true)
    by reflexivity.
  split; [exact H|].
  exact (proj1 (window_survives_until_exit _ [] H)).
Defined.
